(** * WhatsAppFlow: conversation store, AI backend client and message dispatcher

    A shallow embedding of three modules of the repository:
    - [src/database/jsonDb.js]       (module [JsonDatabase]),
    - [src/gemini/geminiClient.js]   (module [GeminiClient]),
    - [src/services/chatbotService.js] (module [ChatbotService]),
    and of what they rely on in [src/whatsapp/whatsappClient.js] and
    [src/utils/performanceMonitor.js] (modules [WhatsAppClient] and
    [PerformanceMonitor]),
    followed by the properties established about them.

    Conventions of the embedding.
    - JavaScript [Map]s keyed by strings or indices are stdpp [gmap]s, [Set]s
      are [gset]s, arrays are lists.
    - Every reading of the clock ([Date.now()], [new Date()]) is an explicit
      argument in epoch milliseconds ([Z]); an ISO time stamp is identified
      with the instant it denotes.
    - What the outside world answers (the AI backend, the channel) is an
      explicit argument as well.
    - The score of a credential is a JavaScript Number; it is computed here
      with exact rationals ([Q]). *)

From Stdlib Require Import ZArith QArith Qminmax Lia Lqa Ascii String.
From stdpp Require Import gmap strings list fin_maps.

Local Open Scope Z_scope.

(* ===================================================================== *)
(** * Part I: the model                                                   *)
(* ===================================================================== *)

(** ** Strings as the code uses them *)

(** [String.prototype.includes]: does [needle] occur in [hay]? *)
Fixpoint includes (hay needle : string) : bool :=
  if String.prefix needle hay then true
  else match hay with
       | EmptyString => false
       | String _ hay' => includes hay' needle
       end.

(** [String.prototype.toLowerCase] on the ASCII letters. *)
Definition lowerChar (c : ascii) : ascii :=
  let n := nat_of_ascii c in
  if ((65 <=? n) && (n <=? 90))%nat then ascii_of_nat (n + 32) else c.

Fixpoint toLowerCase (s : string) : string :=
  match s with
  | EmptyString => EmptyString
  | String c s' => String (lowerChar c) (toLowerCase s')
  end.

(** The white space [String.prototype.trim] strips, among code units below
    256: TAB, LF, VT, FF, CR, SPACE and NBSP. *)
Definition isWhiteSpace (c : ascii) : bool :=
  let n := nat_of_ascii c in
  ((9 <=? n) && (n <=? 13) || (n =? 32) || (n =? 160))%nat.

(** [s.trim().length === 0] *)
Fixpoint trimIsEmpty (s : string) : bool :=
  match s with
  | EmptyString => true
  | String c s' => isWhiteSpace c && trimIsEmpty s'
  end.

(** ** Vocabulary of the statements *)

(** The last [n] elements of a list. *)
Definition lastN {A} (n : nat) (l : list A) : list A :=
  drop (length l - n) l.

(** The numbers [a, a+1, ..., a+n-1]. *)
Definition upto (a : Z) (n : nat) : list Z :=
  map (fun i => a + Z.of_nat i) (seq 0 n).

(* --------------------------------------------------------------------- *)
(** ** The conversation store, [src/database/jsonDb.js]                   *)
(* --------------------------------------------------------------------- *)

Module JsonDatabase.

Inductive Role := user | assistant.

(** One stored turn: the [message] object built by [addMessage].  The
    caller's [metadata] object is kept as an opaque string. *)
Record Message := {
  id : string;
  role : Role;
  content : string;
  timestamp : Z;
  metadata : string
}.

(** [conversation.metadata]; a field is [None] when the object lacks it
    (as after [storeEmotionalContext] created the conversation). *)
Record Metadata := {
  firstMessageTime : option Z;
  lastMessageTime : option Z;
  messageCount : option nat
}.

Record Conversation := {
  messages : list Message;
  conv_metadata : Metadata
}.

(** [this.chatHistory] *)
Abbreviation ChatHistory := (gmap string Conversation).

(** The conversation [addMessage] creates for an unknown sender. *)
Definition freshConversation (now : Z) : Conversation :=
  {| messages := [];
     conv_metadata := {| firstMessageTime := Some now;
                         lastMessageTime := Some now;
                         messageCount := Some 0%nat |} |}.

(** [conversation.messages.splice(0, excess)] after the push, guarded by
    [length > config.bot.maxChatHistory]. *)
Definition trimHistory (maxChatHistory : Z) (msgs : list Message) : list Message :=
  if maxChatHistory <? Z.of_nat (length msgs)
  then drop (Z.to_nat (Z.of_nat (length msgs) - maxChatHistory)) msgs
  else msgs.

(** [addMessage(senderId, role, content, metadata)].  [now] is the clock,
    [messageId] the identifier drawn from the clock and [Math.random()].
    Returns the store and the identifier. *)
Definition addMessage (maxChatHistory : Z) (now : Z) (messageId : string)
    (senderId : string) (r : Role) (c : string) (meta : string)
    (db : ChatHistory) : ChatHistory * string :=
  let conversation :=
    match db !! senderId with
    | Some conv => conv
    | None => freshConversation now
    end in
  let message :=
    {| id := messageId; role := r; content := c; timestamp := now;
       metadata := meta |} in
  let pushed := messages conversation ++ [message] in
  let md :=
    {| firstMessageTime := firstMessageTime (conv_metadata conversation);
       lastMessageTime := Some (timestamp message);
       messageCount := Some (length pushed) |} in
  (<[senderId := {| messages := trimHistory maxChatHistory pushed;
                    conv_metadata := md |}]> db,
   messageId).

(** One call of [addMessage] as data, to append a sequence of turns. *)
Record Append := {
  a_now : Z;
  a_id : string;
  a_role : Role;
  a_content : string;
  a_meta : string
}.

Definition messageOf (a : Append) : Message :=
  {| id := a_id a; role := a_role a; content := a_content a;
     timestamp := a_now a; metadata := a_meta a |}.

Definition addMessages (maxChatHistory : Z) (senderId : string)
    (calls : list Append) (db : ChatHistory) : ChatHistory :=
  foldl (fun d a =>
           fst (addMessage maxChatHistory (a_now a) (a_id a) senderId
                  (a_role a) (a_content a) (a_meta a) d))
        db calls.

(** The stored turns of a sender ([[]] when there is no conversation). *)
Definition storedMessages (senderId : string) (db : ChatHistory) : list Message :=
  match db !! senderId with
  | Some conv => messages conv
  | None => []
  end.


(** [lastMessageTime < cutoffDate]; an absent time is an invalid [Date],
    which compares false. *)
Definition olderThan (t : option Z) (cutoff : Z) : bool :=
  match t with
  | Some t => t <? cutoff
  | None => false
  end.

(** The condition under which [performCleanup] deletes a conversation. *)
Definition expired (cutoff : Z) (conv : Conversation) : bool :=
  olderThan (lastMessageTime (conv_metadata conv)) cutoff
  && (length (messages conv) <? 10)%nat.

(** The body of the loop of [performCleanup] for one entry: [None] when
    the conversation is deleted, otherwise the conversation with its old
    messages filtered out. *)
Definition cleanupConversation (cutoff : Z) (conv : Conversation)
    : option Conversation :=
  if expired cutoff conv then None
  else Some {| messages := filter (fun m => cutoff < timestamp m) (messages conv);
               conv_metadata := conv_metadata conv |}.


(** [Array.prototype.slice(start)]: from index [start], counted from the
    end when negative. *)
Definition sliceFrom {A} (start : Z) (l : list A) : list A :=
  if start <? 0
  then drop (Z.to_nat (Z.max (Z.of_nat (length l) + start) 0)) l
  else drop (Z.to_nat start) l.

(** An entry of the context handed to the backend. *)
Inductive ContextRole := context_user | context_model.

Record ContextEntry := {
  c_role : ContextRole;
  c_text : string;
  c_timestamp : Z
}.

Definition toContext (m : Message) : ContextEntry :=
  {| c_role := match role m with
               | assistant => context_model
               | user => context_user
               end;
     c_text := content m;
     c_timestamp := timestamp m |}.

(** [getConversationContext(senderId)] *)
Definition getConversationContext (maxChatHistory : Z) (senderId : string)
    (db : ChatHistory) : list ContextEntry :=
  match db !! senderId with
  | None => []
  | Some conversation =>
      let context := map toContext (messages conversation) in
      let maxContextSize := Z.min maxChatHistory 50 in
      sliceFrom (- maxContextSize) context
  end.


(** What is on disk: a file holds a complete snapshot of the store, or
    what an interrupted write left of one. *)
Inductive FileContent :=
| Snapshot (db : ChatHistory)
| Torn.

Record Disk := {
  durable : option FileContent;
  temp : option FileContent
}.

(** The outside world of one attempt to save: the store at that moment,
    and whether [fs.writeFile] of the temporary file and [fs.rename] onto
    the history file fail. *)
Record WriteEnv := {
  w_store : ChatHistory;
  w_writeFails : bool;
  w_renameFails : bool
}.

(** The [try] block of [saveChatHistory]: the disk afterwards and whether
    it ran to its end.  A failed [writeFile] may leave a torn temporary
    file. *)
Definition writeOnce (e : WriteEnv) (d : Disk) : Disk * bool :=
  if w_writeFails e
  then ({| durable := durable d; temp := Some Torn |}, false)
  else if w_renameFails e
  then ({| durable := durable d; temp := Some (Snapshot (w_store e)) |}, false)
  else ({| durable := Some (Snapshot (w_store e)); temp := None |}, true).

(** An attempt to save runs to its end. *)
Definition writeSucceeds (e : WriteEnv) : bool :=
  negb (w_writeFails e) && negb (w_renameFails e).

(** [this.maxRetries] and [this.retryDelay] of the store. *)
Definition saveMaxRetries : nat := 3.
Definition saveRetryDelay : Z := 1000.

Record SaveRun := {
  disk : Disk;
  saved : bool;
  writes : nat;
  waits : list Z
}.

(** [saveChatHistory(retryCount)], with [remaining = maxRetries -
    retryCount] retries left: the test [retryCount < this.maxRetries] is
    [remaining > 0]. *)
Fixpoint saveRetry (env : nat -> WriteEnv) (remaining : nat) (d : Disk)
    : SaveRun :=
  let retryCount := (saveMaxRetries - remaining)%nat in
  let '(d', ok) := writeOnce (env retryCount) d in
  if ok then {| disk := d'; saved := true; writes := 1; waits := [] |}
  else
    match remaining with
    | O => {| disk := d'; saved := false; writes := 1; waits := [] |}
    | S remaining' =>
        let r := saveRetry env remaining' d' in
        {| disk := disk r; saved := saved r; writes := S (writes r);
           waits := saveRetryDelay * (Z.of_nat retryCount + 1) :: waits r |}
    end.

(** [saveChatHistory()]; [saved = false] is the rejection. *)
Definition saveChatHistory (env : nat -> WriteEnv) (d : Disk) : SaveRun :=
  saveRetry env saveMaxRetries d.

(** The conversations as [storeEmotionalContext] sees them: a conversation
    together with the [emotionalProfile] log of its metadata ([None] when
    there is none yet).  An entry of the log is kept as an opaque string
    with its time stamp. *)
Record Profiled := {
  conversation : Conversation;
  emotionalProfile : option (list (string * Z))
}.

(** [{ messages: [], metadata: {} }] *)
Definition bareConversation : Conversation :=
  {| messages := [];
     conv_metadata := {| firstMessageTime := None; lastMessageTime := None;
                         messageCount := None |} |}.

(** [Array.prototype.slice(-20)] after the push, guarded by [length > 20]. *)
Definition keepRecent (l : list (string * Z)) : list (string * Z) :=
  if (20 <? length l)%nat then sliceFrom (-20) l else l.

(** [storeEmotionalContext(senderId, emotionalData)] at clock [now]. *)
Definition storeEmotionalContext (now : Z) (senderId : string)
    (emotionalData : string) (db : gmap string Profiled)
    : gmap string Profiled :=
  let entry :=
    default {| conversation := bareConversation; emotionalProfile := None |}
            (db !! senderId) in
  let profile := default [] (emotionalProfile entry) ++ [(emotionalData, now)] in
  <[senderId := {| conversation := conversation entry;
                   emotionalProfile := Some (keepRecent profile) |}]> db.

(** Sample data: a user turn stamped [t], and a conversation of [n]
    turns last touched at [t]. *)
Definition sampleTurn (t : Z) : Append :=
  {| a_now := t; a_id := "id"; a_role := user; a_content := "hi";
     a_meta := "" |}.

Definition sampleConversation (n : nat) (t : Z) : Conversation :=
  {| messages := replicate n (messageOf (sampleTurn t));
     conv_metadata := {| firstMessageTime := Some t;
                         lastMessageTime := Some t;
                         messageCount := Some n |} |}.

End JsonDatabase.

(* --------------------------------------------------------------------- *)
(** ** The AI backend client, [src/gemini/geminiClient.js]                *)
(* --------------------------------------------------------------------- *)

Module GeminiClient.

(** The fields of [config.gemini] the retry loop reads. *)
Record Config := {
  maxRetries : Z;
  retryDelay : Z
}.

(** The credential pool.  [clients] lists the [index] field of the
    entries of [this.clients] in registration order; the three maps are
    [this.requestCounts], [this.errorCounts], [this.lastRequestTimes]. *)
Record State := {
  clients : list nat;
  requestCounts : gmap nat nat;
  errorCounts : gmap nat nat;
  lastRequestTimes : gmap nat Z
}.

Definition zeroed {V} (v : V) (n : nat) : gmap nat V :=
  list_to_map (map (fun i => (i, v)) (seq 0 n)).

(** [initializeClients()]: one slot per API key, all counters zero;
    throws ([None]) when no key is configured. *)
Definition initializeClients (apiKeys : list string) : option State :=
  match apiKeys with
  | [] => None
  | _ => let n := length apiKeys in
         Some {| clients := seq 0 n;
                 requestCounts := zeroed 0%nat n;
                 errorCounts := zeroed 0%nat n;
                 lastRequestTimes := zeroed 0 n |}
  end.

Definition countOf (m : gmap nat nat) (idx : nat) : nat := default 0%nat (m !! idx).
Definition timeOf (m : gmap nat Z) (idx : nat) : Z := default 0 (m !! idx).

(** [requestCount > 0 ? errorCount / requestCount : 0] *)
Definition errorRate (requestCount errorCount : nat) : Q :=
  if (0 <? requestCount)%nat
  then (inject_Z (Z.of_nat errorCount) / inject_Z (Z.of_nat requestCount))%Q
  else 0%Q.

(** [(1 - errorRate) * 100 + Math.min(timeSinceLastRequest / 1000, 60)] *)
Definition scoreOf (rate : Q) (timeSinceLastRequest : Z) : Q :=
  ((1 - rate) * 100 + Qmin (inject_Z timeSinceLastRequest / 1000) 60)%Q.

Definition score (now : Z) (st : State) (idx : nat) : Q :=
  let requestCount := countOf (requestCounts st) idx in
  let errorCount := countOf (errorCounts st) idx in
  let lastRequestTime := timeOf (lastRequestTimes st) idx in
  scoreOf (errorRate requestCount errorCount) (now - lastRequestTime).

(** [score > bestScore] *)
Definition Qgtb (x y : Q) : bool :=
  match (x ?= y)%Q with
  | Gt => true
  | _ => false
  end.

(** The [for ... of this.clients] loop of [getBestClient]. *)
Fixpoint bestLoop (now : Z) (st : State) (cs : list nat)
    (bestClient : option nat) (bestScore : Q) : option nat :=
  match cs with
  | [] => bestClient
  | c :: cs' =>
      if Qgtb (score now st c) bestScore
      then bestLoop now st cs' (Some c) (score now st c)
      else bestLoop now st cs' bestClient bestScore
  end.

(** [getBestClient()]; [None] is [undefined] (no client at all). *)
Definition getBestClient (now : Z) (st : State) : option nat :=
  bestLoop now st (clients st) (head (clients st)) (-1)%Q.

Definition updateRequestCount (clientIndex : nat) (st : State) : State :=
  {| clients := clients st;
     requestCounts :=
       <[clientIndex := (countOf (requestCounts st) clientIndex + 1)%nat]>
         (requestCounts st);
     errorCounts := errorCounts st;
     lastRequestTimes := lastRequestTimes st |}.

Definition updateErrorCount (clientIndex : nat) (st : State) : State :=
  {| clients := clients st;
     requestCounts := requestCounts st;
     errorCounts :=
       <[clientIndex := (countOf (errorCounts st) clientIndex + 1)%nat]>
         (errorCounts st);
     lastRequestTimes := lastRequestTimes st |}.

Definition updateLastRequestTime (clientIndex : nat) (now : Z) (st : State)
    : State :=
  {| clients := clients st;
     requestCounts := requestCounts st;
     errorCounts := errorCounts st;
     lastRequestTimes := <[clientIndex := now]> (lastRequestTimes st) |}.

Definition retryableErrors : list string :=
  [ "Request timeout"; "RATE_LIMIT_EXCEEDED"; "INTERNAL"; "UNAVAILABLE";
    "DEADLINE_EXCEEDED"; "Internal error"; "Service temporarily unavailable" ].

(** [isRetryableError(error)], on the message of the error. *)
Definition isRetryableError (errorMessage : string) : bool :=
  existsb (fun retryableError => includes errorMessage retryableError)
          retryableErrors.

(** What one attempt meets after its credential was chosen: the request
    (raced against the timeout) answers with a text, or something in the
    [try] block throws an error with the given message (a timeout throws
    ["Request timeout"]). *)
Inductive Outcome :=
| Responded (responseText : string)
| Threw (message : string).

(** The outside world of one attempt: the clock when the credential is
    chosen, what the request does, and the clock when it has settled. *)
Record AttemptEnv := {
  t_select : Z;
  outcome : Outcome;
  t_settle : Z
}.

(** The validation of the response: an empty or blank text throws. *)
Definition validate (o : Outcome) : string + string :=
  match o with
  | Responded responseText =>
      if (String.length responseText =? 0)%nat || trimIsEmpty responseText
      then inr "Empty response from Gemini"
      else inl responseText
  | Threw message => inr message
  end.

(** The three atomic pieces of an attempt.  Start of the [try] block:
    choose a credential and count the request. *)
Definition beginAttempt (now : Z) (st : State) : option (nat * State) :=
  match getBestClient now st with
  | Some c => Some (c, updateRequestCount c st)
  | None => None
  end.

(** Success: [updateLastRequestTime(client.index)]. *)
Definition succeedAttempt (c : nat) (now : Z) (st : State) : State :=
  updateLastRequestTime c now st.

(** Start of the [catch] block:
    [currentClient = this.getBestClient(); updateErrorCount(currentClient.index)]. *)
Definition failAttempt (now : Z) (st : State) : option (nat * State) :=
  match getBestClient now st with
  | Some c => Some (c, updateErrorCount c st)
  | None => None
  end.

(** What the caller of [generateContent] gets. *)
Inductive Result :=
| Returned (responseText : string)
| Rejected (message : string).

(** One iteration of the retry loop, as observed: the attempt number, the
    credential that issued the request, the error message if the attempt
    failed, the credential whose error count was incremented, and the
    backoff slept before the next iteration. *)
Record AttemptLog := {
  attempt : Z;
  client : nat;
  failure : option string;
  charged : option nat;
  slept : option Z
}.

Record Run := {
  final : State;
  result : Result;
  log : list AttemptLog
}.

(** The error thrown when [client.index] is read off [undefined]. *)
Definition typeError : string :=
  "Cannot read properties of undefined (reading 'index')".

(** The statements after the loop: all retries failed. *)
Definition exhausted (st : State) (lastError : option string) : Run :=
  {| final := st;
     result := Rejected ("Gemini request failed: "
                         ++ default "Unknown error" lastError);
     log := [] |}.

Definition logged (entry : AttemptLog) (r : Run) : Run :=
  {| final := final r; result := result r; log := entry :: log r |}.

(** [config.gemini.retryDelay * Math.pow(2, attempt)] *)
Definition backoff (cfg : Config) (attempt : Z) : Z :=
  retryDelay cfg * 2 ^ attempt.

(** The [for (attempt = 0; attempt <= retries; attempt++)] loop, over the
    attempt numbers still to run. *)
Fixpoint retryLoop (cfg : Config) (retries : Z) (env : Z -> AttemptEnv)
    (range : list Z) (st : State) (lastError : option string) : Run :=
  match range with
  | [] => exhausted st lastError
  | attempt :: rest =>
      let e := env attempt in
      match beginAttempt (t_select e) st with
      | None =>
          {| final := st; result := Rejected typeError; log := [] |}
      | Some (c, st1) =>
          match validate (outcome e) with
          | inl responseText =>
              {| final := succeedAttempt c (t_settle e) st1;
                 result := Returned responseText;
                 log := [ {| attempt := attempt; client := c;
                             failure := None; charged := None;
                             slept := None |} ] |}
          | inr message =>
              match failAttempt (t_settle e) st1 with
              | None =>
                  {| final := st1; result := Rejected typeError; log := [] |}
              | Some (c', st2) =>
                  if negb (isRetryableError message) && (attempt =? retries)
                  then
                    logged {| attempt := attempt; client := c;
                              failure := Some message; charged := Some c';
                              slept := None |}
                           (exhausted st2 (Some message))
                  else
                    logged {| attempt := attempt; client := c;
                              failure := Some message; charged := Some c';
                              slept := if attempt <? retries
                                       then Some (backoff cfg attempt)
                                       else None |}
                           (retryLoop cfg retries env rest st2 (Some message))
              end
          end
      end
  end.

(** The attempt numbers [0 .. retries]. *)
Definition attemptNumbers (retries : Z) : list Z :=
  map Z.of_nat (seq 0 (Z.to_nat (retries + 1))).

(** [maxRetries || config.gemini.maxRetries]: the argument when it is
    given and not zero, the configured value otherwise. *)
Definition retryBudget (cfg : Config) (maxRetriesArg : option Z) : Z :=
  match maxRetriesArg with
  | Some n => if n =? 0 then maxRetries cfg else n
  | None => maxRetries cfg
  end.

(** [generateContent(conversationHistory, memorySummary, userMemory,
    maxRetries)]: the conversation only decides what the backend answers,
    which [env] supplies per attempt number. *)
Definition generateContent (cfg : Config) (env : Z -> AttemptEnv)
    (maxRetriesArg : option Z) (st : State) : Run :=
  let retries := retryBudget cfg maxRetriesArg in
  retryLoop cfg retries env (attemptNumbers retries) st None.

(** [generateSimpleResponse(prompt, maxRetries = 2)] *)
Definition generateSimpleResponse (cfg : Config) (env : Z -> AttemptEnv)
    (maxRetriesArg : option Z) (st : State) : Run :=
  generateContent cfg env (Some (default 2 maxRetriesArg)) st.

(** [resetStats()]: the three counters of every registered client are set
    to zero. *)
Definition resetStats (st : State) : State :=
  {| clients := clients st;
     requestCounts := foldr (fun c m => <[c := 0%nat]> m) (requestCounts st) (clients st);
     errorCounts := foldr (fun c m => <[c := 0%nat]> m) (errorCounts st) (clients st);
     lastRequestTimes := foldr (fun c m => <[c := 0]> m) (lastRequestTimes st) (clients st) |}.


(** The sum of a map of counters. *)
Definition total (m : gmap nat nat) : nat :=
  map_fold (fun _ v acc => (v + acc)%nat) 0%nat m.

(** The failed attempts of a run and the time it slept in all. *)
Definition failed (e : AttemptLog) : bool :=
  match failure e with Some _ => true | None => false end.

Definition totalSleep (r : Run) : Z :=
  foldr (fun e acc => default 0 (slept e) + acc) 0 (log r).

(** The error message an attempt ends with, if it fails. *)
Definition failureOf (o : Outcome) : option string :=
  match validate o with
  | inl _ => None
  | inr message => Some message
  end.



(** [c], at position [i] of [cs], has the greatest value of [f] and is the
    first to have it. *)
Definition firstMax (f : nat -> Q) (cs : list nat) (i : nat) (c : nat) : Prop :=
  cs !! i = Some c
  /\ Forall (fun c' => (f c' <= f c)%Q) cs
  /\ forall j c', (j < i)%nat -> cs !! j = Some c' -> (f c' < f c)%Q.

(** What one run of the loop looks like from attempt [a] on, with [n]
    attempts left ([a + n = retries + 1]): the attempts are numbered in
    sequence, each fails or not as the backend decides, the run goes on
    after an attempt exactly when it failed and attempts remain, sleeping
    the backoff in between, and a text is returned exactly when the last
    attempt was answered with it. *)
Definition loopShape (cfg : Config) (retries : Z) (env : Z -> AttemptEnv)
    (a : Z) (n : nat) (r : Run) : Prop :=
  ((0 < n)%nat -> log r <> [])
  /\ (length (log r) <= n)%nat
  /\ (forall i e, log r !! i = Some e ->
        attempt e = a + Z.of_nat i
        /\ failure e = failureOf (outcome (env (a + Z.of_nat i)))
        /\ ((S i < length (log r))%nat
            <-> failure e <> None /\ a + Z.of_nat i < retries)
        /\ slept e = (if (S i <? length (log r))%nat
                      then Some (backoff cfg (a + Z.of_nat i)) else None))
  /\ (forall text,
        result r = Returned text
        <-> exists e, last (log r) = Some e
                      /\ validate (outcome (env (attempt e))) = inl text).

(** Sample data. *)
Definition defaultConfig : Config := {| maxRetries := 3; retryDelay := 1000 |}.

Definition epoch : Z := 1700000000000.

Definition twoSlots : State :=
  default {| clients := []; requestCounts := ∅; errorCounts := ∅;
             lastRequestTimes := ∅ |}
          (initializeClients ["key-a"; "key-b"]).


(** Slot 0 has failed one request in two and has been idle for long; slot 1
    has a clean record and answered five seconds ago. *)
Definition driftingPool : State :=
  {| clients := [0%nat; 1%nat];
     requestCounts := {[ 0%nat := 2%nat; 1%nat := 1%nat ]};
     errorCounts := {[ 0%nat := 1%nat; 1%nat := 0%nat ]};
     lastRequestTimes := {[ 0%nat := 0; 1%nat := epoch - 5000 ]} |}.

(** The first request runs into the thirty-second timeout, the second is
    answered. *)
Definition timeoutThenOk (attempt : Z) : AttemptEnv :=
  if attempt =? 0
  then {| t_select := epoch; outcome := Threw "Request timeout";
          t_settle := epoch + 30000 |}
  else {| t_select := epoch + 31000; outcome := Responded "ok";
          t_settle := epoch + 32000 |}.

(** The first request is refused for an invalid key, the second is
    answered. *)
Definition invalidKeyThenOk (attempt : Z) : AttemptEnv :=
  if attempt =? 0
  then {| t_select := epoch; outcome := Threw "API key not valid";
          t_settle := epoch + 200 |}
  else {| t_select := epoch + 1200; outcome := Responded "hello";
          t_settle := epoch + 2200 |}.



End GeminiClient.

(* --------------------------------------------------------------------- *)
(** ** The message dispatcher, [src/services/chatbotService.js]           *)
(* --------------------------------------------------------------------- *)

Module ChatbotService.

(** The fields of an inbound [messageInfo] the dispatcher reads. *)
Record MessageInfo := {
  sender : string;
  text : string;
  senderName : string;
  isGroup : bool;
  messageId : string
}.

(** An entry of [this.rateLimiter]. *)
Record RateWindow := {
  count : nat;
  resetTime : Z
}.

(** [isRateLimited(userId)] at clock [now]: the verdict and the limiter
    map.  The window object is reset in place when it has expired, which
    shows in the map only when the object came from the map. *)
Definition isRateLimited (now : Z) (userId : string)
    (rl : gmap string RateWindow) : bool * gmap string RateWindow :=
  let userLimits := default {| count := 0; resetTime := now |} (rl !! userId) in
  let userLimits' :=
    if resetTime userLimits <? now
    then {| count := 0; resetTime := now + 60000 |}
    else userLimits in
  ((10 <=? count userLimits')%nat,
   match rl !! userId with
   | Some _ => <[userId := userLimits']> rl
   | None => rl
   end).

(** [updateRateLimit(userId)] at clock [now]. *)
Definition updateRateLimit (now : Z) (userId : string)
    (rl : gmap string RateWindow) : gmap string RateWindow :=
  let userLimits :=
    default {| count := 0; resetTime := now + 60000 |} (rl !! userId) in
  <[userId := {| count := S (count userLimits);
                 resetTime := resetTime userLimits |}]> rl.

(** How [_handleSingleMessage] begins, before its first [await]: a group
    message that does not mention the bot is skipped, a rate-limited message
    is dropped, any other message is taken up. *)
Inductive Verdict := Skipped | Limited | Accepted.

(** The two readings of the clock in that stretch: in [isRateLimited] and
    in [updateRateLimit]. *)
Record Clock := {
  tCheck : Z;
  tUpdate : Z
}.

(** [isGroup && !text.toLowerCase().includes(botName.toLowerCase())],
    [personaName] being [config.persona.name]. *)
Definition notAddressed (personaName : string) (m : MessageInfo) : bool :=
  isGroup m && negb (includes (toLowerCase (text m)) (toLowerCase personaName)).

Definition startHandler (personaName : string) (clock : Clock) (m : MessageInfo)
    (rl : gmap string RateWindow) : Verdict * gmap string RateWindow :=
  if notAddressed personaName m then (Skipped, rl)
  else
    let '(limited, rl1) := isRateLimited (tCheck clock) (sender m) rl in
    if limited then (Limited, rl1)
    else (Accepted, updateRateLimit (tUpdate clock) (sender m) rl1).

(** What the rest of the handler does with a message it took up.  Either
    the [try] block runs to its end and the reply is sent, or something in
    it throws and the [catch] block sends an apology; the sending of the
    apology can throw in turn (the channel is disconnected), and then the
    handler rejects. *)
Inductive BodyOutcome :=
| Replied (cleanResponse : string)
| Failed (apologyDelivered : bool).

(** How the promise of [_handleSingleMessage] settles, and what was sent
    to the sender meanwhile. *)
Inductive Delivery := Reply (cleanResponse : string) | Apology.

Record Settlement := {
  delivered : list Delivery;
  rejects : bool
}.

Definition settlement (v : Verdict) (o : BodyOutcome) : Settlement :=
  match v with
  | Skipped | Limited => {| delivered := []; rejects := false |}
  | Accepted =>
      match o with
      | Replied cleanResponse =>
          {| delivered := [Reply cleanResponse]; rejects := false |}
      | Failed true => {| delivered := [Apology]; rejects := false |}
      | Failed false => {| delivered := []; rejects := true |}
      end
  end.

(** A running [_processQueue(sender)], suspended at
    [await this._handleSingleMessage(messageInfo)]. *)
Record Worker := {
  w_sender : string;
  w_message : MessageInfo;
  w_verdict : Verdict
}.

(** What an observer of the service sees happen. *)
Inductive Entry :=
| WorkerStarted (s : string)
| WorkerEnded (s : string) (aborted : bool)
| Handling (m : MessageInfo) (v : Verdict)
| Sent (s : string) (d : Delivery).

(** The service: its queues, the markers of the senders being processed,
    the rate limiter, the running workers and the journal of what
    happened. *)
Record State := {
  messageQueue : gmap string (list MessageInfo);
  processingMessages : gset string;
  rateLimiter : gmap string RateWindow;
  workers : list Worker;
  journal : list Entry
}.

Definition initial : State :=
  {| messageQueue := ∅; processingMessages := ∅; rateLimiter := ∅;
     workers := []; journal := [] |}.

(** The queue of a sender ([[]] when there is none). *)
Definition pending (s : string) (st : State) : list MessageInfo :=
  default [] (messageQueue st !! s).

(** The [finally] block of [_processQueue]. *)
Definition finish (s : string) (aborted : bool) (st : State) : State :=
  {| messageQueue := delete s (messageQueue st);
     processingMessages := processingMessages st ∖ {[s]};
     rateLimiter := rateLimiter st;
     workers := workers st;
     journal := journal st ++ [WorkerEnded s aborted] |}.

(** The head of the [while] loop of [_processQueue(s)]: with a message
    pending, shift it and call the handler, which runs up to its first
    [await]; otherwise leave the loop through [finally]. *)
Definition loopHead (personaName : string) (clock : Clock) (s : string)
    (st : State) : State :=
  match messageQueue st !! s with
  | Some (m :: rest) =>
      let '(v, rl) := startHandler personaName clock m (rateLimiter st) in
      {| messageQueue := <[s := rest]> (messageQueue st);
         processingMessages := processingMessages st;
         rateLimiter := rl;
         workers := workers st ++ [{| w_sender := s; w_message := m;
                                     w_verdict := v |}];
         journal := journal st ++ [Handling m v] |}
  | _ => finish s false st
  end.

(** [_processQueue(s)] up to its first [await]. *)
Definition processQueue (personaName : string) (clock : Clock) (s : string)
    (st : State) : State :=
  loopHead personaName clock s
    {| messageQueue := messageQueue st;
       processingMessages := {[s]} ∪ processingMessages st;
       rateLimiter := rateLimiter st;
       workers := workers st;
       journal := journal st ++ [WorkerStarted s] |}.

(** [queueMessage(messageInfo)] *)
Definition queueMessage (personaName : string) (clock : Clock)
    (m : MessageInfo) (st : State) : State :=
  let s := sender m in
  let st1 :=
    {| messageQueue := <[s := pending s st ++ [m]]> (messageQueue st);
       processingMessages := processingMessages st;
       rateLimiter := rateLimiter st;
       workers := workers st;
       journal := journal st |} in
  if decide (s ∈ processingMessages st1) then st1
  else processQueue personaName clock s st1.

(** The handler awaited by the [i]-th running worker settles: the worker
    resumes after its [await].  When the handler resolved the loop goes on;
    when it rejected, the [catch] around the loop logs the error and the
    [finally] block ends the worker. *)
Definition resume (personaName : string) (clock : Clock) (i : nat)
    (o : BodyOutcome) (st : State) : State :=
  match workers st !! i with
  | None => st
  | Some w =>
      let r := settlement (w_verdict w) o in
      let st1 :=
        {| messageQueue := messageQueue st;
           processingMessages := processingMessages st;
           rateLimiter := rateLimiter st;
           workers := delete i (workers st);
           journal := journal st ++ map (Sent (w_sender w)) (delivered r) |} in
      if rejects r then finish (w_sender w) true st1
      else loopHead personaName clock (w_sender w) st1
  end.

(** The two things that happen to the service. *)
Inductive Event :=
| Arrive (clock : Clock) (m : MessageInfo)
| Settle (clock : Clock) (i : nat) (o : BodyOutcome).

Definition step (personaName : string) (st : State) (ev : Event) : State :=
  match ev with
  | Arrive clock m => queueMessage personaName clock m st
  | Settle clock i o => resume personaName clock i o st
  end.

Definition run (personaName : string) (evs : list Event) (st : State) : State :=
  foldl (step personaName) st evs.

(** The running workers of a sender, its worker starts so far, and the
    verdicts passed on its messages so far. *)
Definition activeWorkers (s : string) (st : State) : list Worker :=
  filter (fun w => w_sender w = s) (workers st).



Definition handled (st : State) : list (MessageInfo * Verdict) :=
  omap (fun e => match e with
                 | Handling m v => Some (m, v)
                 | _ => None
                 end) (journal st).

(** The senders of the running workers. *)
Definition senders (st : State) : list string := w_sender <$> workers st.

(** What holds of the service between two events. *)
Definition consistent (st : State) : Prop :=
  NoDup (senders st)
  /\ (forall s, s ∈ processingMessages st <-> s ∈ senders st)
  /\ (forall s, is_Some (messageQueue st !! s) -> s ∈ processingMessages st).

(** What holds while the worker of [s] itself is running (it is not among
    the suspended ones). *)
Definition consistentBut (s : string) (st : State) : Prop :=
  NoDup (senders st)
  /\ (s ∉ senders st)
  /\ (forall s', s' ∈ processingMessages st <-> s' = s \/ s' ∈ senders st)
  /\ (forall s', is_Some (messageQueue st !! s') -> s' ∈ processingMessages st).

(** Every queue holds messages of its own sender only. *)
Definition keyed (st : State) : Prop :=
  forall s q, messageQueue st !! s = Some q -> Forall (fun m => sender m = s) q.

(** [getStatus()]: the two counters it reads off the dispatcher,
    [processingMessages.size] and [rateLimiter.size] (reported as
    [rateLimitedUsers]). *)
Record Status := {
  status_processingMessages : nat;
  status_rateLimitedUsers : nat
}.

Definition getStatus (st : State) : Status :=
  {| status_processingMessages := size (processingMessages st);
     status_rateLimitedUsers := size (rateLimiter st) |}.

(** [cleanup()]: the queues, the markers and the limiter are cleared; the
    calls of [_processQueue] that are suspended at an [await] stay what
    they are. *)
Definition cleanup (st : State) : State :=
  {| messageQueue := ∅;
     processingMessages := ∅;
     rateLimiter := ∅;
     workers := workers st;
     journal := journal st |}.

(** The messages of sender [s] in the order of their submission, and in
    the order in which a handler was started on them. *)
Definition arrivalsOf (s : string) (evs : list Event) : list MessageInfo :=
  omap (fun ev => match ev with
                  | Arrive _ m => if decide (sender m = s) then Some m else None
                  | Settle _ _ _ => None
                  end) evs.

Definition handledIn (s : string) (js : list Entry) : list MessageInfo :=
  omap (fun e => match e with
                 | Handling m _ => if decide (sender m = s) then Some m else None
                 | _ => None
                 end) js.

Definition handledOf (s : string) (st : State) : list MessageInfo :=
  handledIn s (journal st).

(** No handler of the run rejects. *)
Definition resolves (ev : Event) : Prop :=
  match ev with
  | Settle _ _ (Failed false) => False
  | _ => True
  end.

(** The handlers of one sender run one after the other: the verdicts on a
    sequence of its messages, each with the clock of its handler. *)
Fixpoint handleAll (personaName : string) (hs : list (Clock * MessageInfo))
    (rl : gmap string RateWindow) : list Verdict * gmap string RateWindow :=
  match hs with
  | [] => ([], rl)
  | (clock, m) :: hs' =>
      let '(v, rl1) := startHandler personaName clock m rl in
      let '(vs, rl2) := handleAll personaName hs' rl1 in
      (v :: vs, rl2)
  end.

(** The clocks at which messages were submitted. *)
Definition arrivalTimes (evs : list Event) : list Z :=
  omap (fun ev => match ev with
                  | Arrive clock _ => Some (tCheck clock)
                  | Settle _ _ _ => None
                  end) evs.

(** Sample data. *)
Definition at_ (t : Z) : Clock := {| tCheck := t; tUpdate := t |}.

Definition fromAlice (t : string) : MessageInfo :=
  {| sender := "alice"; text := t; senderName := "Alice"; isGroup := false;
     messageId := t |}.

(** Two messages of one sender; the handling of the first fails and so
    does the sending of the apology ([apologyDelivered] is [false]) or not
    ([true]). *)
Definition failingFirst (apologyDelivered : bool) : list Event :=
  [ Arrive (at_ 0) (fromAlice "m1");
    Arrive (at_ 10) (fromAlice "m2");
    Settle (at_ 5000) 0 (Failed apologyDelivered) ].

(** Eleven messages of one sender submitted within ten seconds, one per
    second, and answered one every seven seconds. *)
Definition slowService : list Event :=
  map (fun k => Arrive (at_ (1000 * Z.of_nat k)) (fromAlice "m")) (seq 0 7)
  ++ [Settle (at_ 7000) 0 (Replied "r")]
  ++ map (fun k => Arrive (at_ (1000 * Z.of_nat k)) (fromAlice "m")) (seq 7 4)
  ++ map (fun k => Settle (at_ (7000 * Z.of_nat k)) 0 (Replied "r")) (seq 2 10).

(** Eleven messages of one sender handled within eleven seconds. *)
Definition burst : list (Clock * MessageInfo) :=
  map (fun k => (at_ (1000 * Z.of_nat k), fromAlice "m")) (seq 0 11).

End ChatbotService.

(* --------------------------------------------------------------------- *)
(** ** The channel client, [src/whatsapp/whatsappClient.js]               *)
(* --------------------------------------------------------------------- *)

Module WhatsAppClient.

(** What the caller of [sendMessage] gets: the promise resolves, or it
    rejects with an error, given by its message ([None] for [null]). *)
Inductive SendResult :=
| Sent
| SendFailed (error : option string).

(** One call of [sendMessage] as observed: its result, the number of calls
    of [sock.sendMessage] and the sleeps in between. *)
Record SendRun := {
  sendResult : SendResult;
  sends : nat;
  sendWaits : list Z
}.

(** [const maxRetries = 3] *)
Definition sendMaxRetries : nat := 3.

Definition notConnected : string := "WhatsApp client is not connected".

(** The [for (attempt = 0; attempt < maxRetries; attempt++)] loop over the
    attempt numbers still to run and the [throw lastError] after it;
    [sock attempt] is what [sock.sendMessage] does on that attempt: it
    resolves ([None]) or throws an error with the given message. *)
Fixpoint sendLoop (sock : nat -> option string) (attempts : list nat)
    (lastError : option string) : SendRun :=
  match attempts with
  | [] => {| sendResult := SendFailed lastError; sends := 0; sendWaits := [] |}
  | attempt :: rest =>
      match sock attempt with
      | None => {| sendResult := Sent; sends := 1; sendWaits := [] |}
      | Some error =>
          let r := sendLoop sock rest (Some error) in
          {| sendResult := sendResult r;
             sends := S (sends r);
             sendWaits :=
               (if (attempt <? sendMaxRetries - 1)%nat
                then [1000 * (Z.of_nat attempt + 1)] else [])
               ++ sendWaits r |}
      end
  end.

(** [sendMessage(jid, text)]: [isConnected] and [hasSock] are the two
    fields read by the guard. *)
Definition sendMessage (isConnected hasSock : bool)
    (sock : nat -> option string) : SendRun :=
  if negb isConnected || negb hasSock
  then {| sendResult := SendFailed (Some notConnected); sends := 0;
          sendWaits := [] |}
  else sendLoop sock (seq 0 sendMaxRetries) None.

End WhatsAppClient.

(* --------------------------------------------------------------------- *)
(** ** The performance monitor, [src/utils/performanceMonitor.js]         *)
(* --------------------------------------------------------------------- *)

Module PerformanceMonitor.

(** A recorded event: its type, its time stamp, and the [responseTime] of
    its data when there is one (a difference of two clock readings). *)
Record PerfEvent := {
  ev_type : string;
  ev_timestamp : Z;
  ev_responseTime : option Z
}.

(** The monitor.  [metrics.memoryUsage] is left out: it is only written by
    the memory timer.  The average is a JavaScript Number, computed here
    with exact rationals. *)
Record Monitor := {
  startTime : Z;
  events : list PerfEvent;
  messagesProcessed : nat;
  averageResponseTime : Q;
  errorCount : nat;
  activeConnections : Z;
  monitoring : bool
}.

(** The constructor. *)
Definition construct (now : Z) : Monitor :=
  {| startTime := now; events := []; messagesProcessed := 0;
     averageResponseTime := 0; errorCount := 0; activeConnections := 0;
     monitoring := false |}.

Definition startMonitoring (now : Z) (m : Monitor) : Monitor :=
  if monitoring m then m
  else {| startTime := now; events := events m;
          messagesProcessed := messagesProcessed m;
          averageResponseTime := averageResponseTime m;
          errorCount := errorCount m;
          activeConnections := activeConnections m;
          monitoring := true |}.

Definition stopMonitoring (m : Monitor) : Monitor :=
  if negb (monitoring m) then m
  else {| startTime := startTime m; events := events m;
          messagesProcessed := messagesProcessed m;
          averageResponseTime := averageResponseTime m;
          errorCount := errorCount m;
          activeConnections := activeConnections m;
          monitoring := false |}.

(** [updateAverageResponseTime(responseTime)], called after the counter
    was incremented. *)
Definition updateAverageResponseTime (responseTime : Z) (m : Monitor)
    : Monitor :=
  let currentAvg := averageResponseTime m in
  let count := inject_Z (Z.of_nat (messagesProcessed m)) in
  {| startTime := startTime m; events := events m;
     messagesProcessed := messagesProcessed m;
     averageResponseTime :=
       ((currentAvg * (count - 1) + inject_Z responseTime) / count)%Q;
     errorCount := errorCount m;
     activeConnections := activeConnections m;
     monitoring := monitoring m |}.

(** [updateMetrics(event)]: the [switch] on the type of the event; the
    average is updated when [event.data.responseTime] is truthy. *)
Definition updateMetrics (event : PerfEvent) (m : Monitor) : Monitor :=
  if String.eqb (ev_type event) "message_processed" then
    let m1 := {| startTime := startTime m; events := events m;
                 messagesProcessed := S (messagesProcessed m);
                 averageResponseTime := averageResponseTime m;
                 errorCount := errorCount m;
                 activeConnections := activeConnections m;
                 monitoring := monitoring m |} in
    match ev_responseTime event with
    | Some responseTime =>
        if responseTime =? 0 then m1
        else updateAverageResponseTime responseTime m1
    | None => m1
    end
  else if String.eqb (ev_type event) "error_occurred" then
    {| startTime := startTime m; events := events m;
       messagesProcessed := messagesProcessed m;
       averageResponseTime := averageResponseTime m;
       errorCount := S (errorCount m);
       activeConnections := activeConnections m;
       monitoring := monitoring m |}
  else if String.eqb (ev_type event) "whatsapp_connected" then
    {| startTime := startTime m; events := events m;
       messagesProcessed := messagesProcessed m;
       averageResponseTime := averageResponseTime m;
       errorCount := errorCount m;
       activeConnections := activeConnections m + 1;
       monitoring := monitoring m |}
  else if String.eqb (ev_type event) "whatsapp_disconnected" then
    {| startTime := startTime m; events := events m;
       messagesProcessed := messagesProcessed m;
       averageResponseTime := averageResponseTime m;
       errorCount := errorCount m;
       activeConnections := Z.max 0 (activeConnections m - 1);
       monitoring := monitoring m |}
  else m.

(** [recordEvent(eventType, data)] at clock [now]. *)
Definition recordEvent (now : Z) (eventType : string)
    (responseTime : option Z) (m : Monitor) : Monitor :=
  if negb (monitoring m) then m
  else
    let event := {| ev_type := eventType; ev_timestamp := now;
                    ev_responseTime := responseTime |} in
    let pushed := events m ++ [event] in
    let kept := if (1000 <? length pushed)%nat
                then JsonDatabase.sliceFrom (-1000) pushed else pushed in
    updateMetrics event
      {| startTime := startTime m; events := kept;
         messagesProcessed := messagesProcessed m;
         averageResponseTime := averageResponseTime m;
         errorCount := errorCount m;
         activeConnections := activeConnections m;
         monitoring := monitoring m |}.

(** [recordMessageProcessing(startTime, endTime, success)]; [now1] and
    [now2] are the clocks of its two [recordEvent] calls. *)
Definition recordMessageProcessing (now1 now2 startTime endTime : Z)
    (success : bool) (m : Monitor) : Monitor :=
  let responseTime := endTime - startTime in
  let m1 := recordEvent now1 "message_processed" (Some responseTime) m in
  if negb success
  then recordEvent now2 "error_occurred" (Some responseTime) m1
  else m1.

(** The bookkeeping of [_handleSingleMessage] in the dispatcher: at the end
    of its [try] block, after the reply was sent, and at the end of its
    [catch] block, after the apology was sent. *)
Definition recordReply (now1 now2 startTime endTime : Z) (m : Monitor)
    : Monitor :=
  recordMessageProcessing now1 now2 startTime endTime true m.

Definition recordFailure (now1 now2 now3 startTime endTime : Z) (m : Monitor)
    : Monitor :=
  recordEvent now3 "error_occurred" None
    (recordMessageProcessing now1 now2 startTime endTime false m).

(** The calls made on the monitor, and a monitor after a sequence of them
    from its construction. *)
Inductive Call :=
| StartMonitoring (now : Z)
| StopMonitoring
| RecordEvent (now : Z) (eventType : string) (responseTime : option Z).

Definition call (m : Monitor) (c : Call) : Monitor :=
  match c with
  | StartMonitoring now => startMonitoring now m
  | StopMonitoring => stopMonitoring m
  | RecordEvent now eventType responseTime =>
      recordEvent now eventType responseTime m
  end.

Definition calls (cs : list Call) (m : Monitor) : Monitor := foldl call m cs.

(** The events of the [recordEvent] calls made while the monitor was
    switched on, [on] being its switch at the start. *)
Fixpoint accepted (on : bool) (cs : list Call) : list PerfEvent :=
  match cs with
  | [] => []
  | StartMonitoring _ :: cs' => accepted true cs'
  | StopMonitoring :: cs' => accepted false cs'
  | RecordEvent now eventType responseTime :: cs' =>
      (if on
       then [{| ev_type := eventType; ev_timestamp := now;
                ev_responseTime := responseTime |}]
       else [])
      ++ accepted on cs'
  end.

Definition ofType (eventType : string) (evs : list PerfEvent)
    : list PerfEvent :=
  List.filter (fun e => String.eqb (ev_type e) eventType) evs.

(** [event.data.responseTime] is truthy. *)
Definition timed (e : PerfEvent) : bool :=
  match ev_responseTime e with
  | Some t => negb (t =? 0)
  | None => false
  end.

(** The response times that enter the average. *)
Definition responseTimes (evs : list PerfEvent) : list Z :=
  omap (fun e => match ev_responseTime e with
                 | Some t => if t =? 0 then None else Some t
                 | None => None
                 end) (ofType "message_processed" evs).

Definition sumZ (l : list Z) : Z := foldr Z.add 0 l.

(** The monitor [m] accounts for the events [pre] recorded so far. *)
Definition tracks (m : Monitor) (pre : list PerfEvent) : Prop :=
  events m = lastN 1000 pre
  /\ messagesProcessed m = length (ofType "message_processed" pre)
  /\ errorCount m = length (ofType "error_occurred" pre)
  /\ 0 <= activeConnections m
       <= Z.of_nat (length (ofType "whatsapp_connected" pre))
  /\ (forallb timed (ofType "message_processed" pre) = true ->
      (averageResponseTime m * inject_Z (Z.of_nat (messagesProcessed m))
       == inject_Z (sumZ (responseTimes pre)))%Q).

End PerformanceMonitor.

(* ===================================================================== *)
(** * Part II: properties                                                 *)
(* ===================================================================== *)

Section ConversationStore.
Import JsonDatabase.

Lemma lastN_app_lastN {A} (n : nat) (l l' : list A) :
  lastN n (lastN n l ++ l') = lastN n (l ++ l').
Proof.
  unfold lastN.
  rewrite <- (drop_app_le l l' (length l - n)) by lia.
  rewrite drop_drop, length_drop, length_app. f_equal. lia.
Qed.

Lemma trimHistory_lastN (mx : Z) (msgs : list Message) :
  0 <= mx -> trimHistory mx msgs = lastN (Z.to_nat mx) msgs.
Proof.
  intros Hmx. unfold trimHistory, lastN.
  destruct (Z.ltb_spec mx (Z.of_nat (length msgs))).
  - f_equal. lia.
  - replace (length msgs - Z.to_nat mx)%nat with 0%nat by lia. reflexivity.
Qed.

Lemma storedMessages_addMessage mx now mid sender r c meta (db : ChatHistory) :
  storedMessages sender (addMessage mx now mid sender r c meta db).1
  = trimHistory mx
      (storedMessages sender db
         ++ [{| id := mid; role := r; content := c; timestamp := now;
                metadata := meta |}]).
Proof.
  unfold storedMessages, addMessage. simpl. rewrite lookup_insert_eq.
  simpl. destruct (db !! sender); reflexivity.
Qed.

(** Appending to one conversation leaves the others alone. *)
Lemma storedMessages_addMessage_other mx now mid sender other r c meta
    (db : ChatHistory) :
  sender <> other ->
  (addMessage mx now mid sender r c meta db).1 !! other = db !! other.
Proof. intros Hne. unfold addMessage. simpl. by rewrite lookup_insert_ne. Qed.

Lemma addMessages_cons mx sender a calls (db : ChatHistory) :
  addMessages mx sender (a :: calls) db
  = addMessages mx sender calls
      (addMessage mx (a_now a) (a_id a) sender (a_role a) (a_content a)
         (a_meta a) db).1.
Proof. reflexivity. Qed.

Lemma storedMessages_addMessages mx sender calls (db : ChatHistory) :
  0 <= mx -> calls <> [] ->
  storedMessages sender (addMessages mx sender calls db)
  = lastN (Z.to_nat mx) (storedMessages sender db ++ map messageOf calls).
Proof.
  intros Hmx. revert db. induction calls as [|a calls IH]; intros db Hne.
  - congruence.
  - rewrite addMessages_cons. destruct calls as [|b calls].
    + unfold addMessages at 1. cbn [foldl].
      rewrite storedMessages_addMessage. by apply trimHistory_lastN.
    + rewrite IH by discriminate.
      rewrite storedMessages_addMessage, trimHistory_lastN by done.
      rewrite lastN_app_lastN, <- app_assoc. reflexivity.
Qed.

(** C8.  Bounded history: appending [maxChatHistory + 5] turns to one
    conversation, one [addMessage] at a time, leaves exactly
    [maxChatHistory] stored turns; they are the appended turns without the
    five oldest, in the order of insertion. *)
Theorem C8_bounded_history (mx : Z) (sender : string) (calls : list Append)
    (db : ChatHistory) :
  0 <= mx ->
  length calls = (Z.to_nat mx + 5)%nat ->
  storedMessages sender (addMessages mx sender calls db)
    = map messageOf (drop 5 calls)
  /\ length (storedMessages sender (addMessages mx sender calls db))
    = Z.to_nat mx.
Proof.
  intros Hmx Hlen.
  assert (Hst : storedMessages sender (addMessages mx sender calls db)
                = map messageOf (drop 5 calls)).
  { rewrite storedMessages_addMessages; [|done|].
    - unfold lastN. rewrite length_app, length_map, Hlen.
      replace (length (storedMessages sender db) + (Z.to_nat mx + 5)
               - Z.to_nat mx)%nat
        with (length (storedMessages sender db) + 5)%nat by lia.
      rewrite drop_app_add. by rewrite skipn_map.
    - intros ->. simpl in Hlen. lia. }
  split; [exact Hst|].
  rewrite Hst, length_map, length_drop. lia.
Qed.

Lemma C8_bounded_history_witness :
  0 <= 2
  /\ storedMessages "alice"
       (addMessages 2 "alice" (map sampleTurn [1; 2; 3; 4; 5; 6; 7]) ∅)
     = map messageOf (map sampleTurn [6; 7]).
Proof.
  split; [lia|].
  apply (C8_bounded_history 2 "alice" (map sampleTurn [1; 2; 3; 4; 5; 6; 7]) ∅);
    [lia | reflexivity].
Defined.







End ConversationStore.

Section CredentialSelection.
Import GeminiClient.

Lemma Qgtb_true x y : Qgtb x y = true <-> (y < x)%Q.
Proof.
  unfold Qgtb. rewrite (Qgt_alt x y).
  destruct (x ?= y)%Q; split; congruence.
Qed.

Lemma Qgtb_false x y : Qgtb x y = false <-> (x <= y)%Q.
Proof.
  unfold Qgtb. rewrite (Qle_alt x y).
  destruct (x ?= y)%Q; split; congruence.
Qed.

Lemma bestLoop_cases now st cs b bs :
  (Forall (fun c => (score now st c <= bs)%Q) cs
   /\ bestLoop now st cs b bs = b)
  \/ (exists i c, bestLoop now st cs b bs = Some c
                  /\ (bs < score now st c)%Q
                  /\ firstMax (score now st) cs i c).
Proof.
  revert b bs. induction cs as [|c cs IH]; intros b bs; simpl.
  - left. split; [constructor | reflexivity].
  - destruct (Qgtb (score now st c) bs) eqn:E.
    + apply Qgtb_true in E.
      destruct (IH (Some c) (score now st c)) as [[Hall ->]|(i & c' & -> & Hlt & Hc' & Hmax & Hfirst)].
      * right. exists 0%nat, c. split; [reflexivity|]. split; [exact E|].
        split; [reflexivity|]. split.
        -- constructor; [apply Qle_refl | exact Hall].
        -- intros j c' Hj. lia.
      * right. exists (S i), c'. split; [reflexivity|].
        split; [by eapply Qlt_trans|]. split; [exact Hc'|]. split.
        -- constructor; [by apply Qlt_le_weak | exact Hmax].
        -- intros [|j] c'' Hj Hlook; simpl in Hlook.
           ++ by injection Hlook as <-.
           ++ apply (Hfirst j); [lia | exact Hlook].
    + apply Qgtb_false in E.
      destruct (IH b bs) as [[Hall ->]|(i & c' & -> & Hlt & Hc' & Hmax & Hfirst)].
      * left. split; [by constructor | reflexivity].
      * right. exists (S i), c'. split; [reflexivity|].
        split; [exact Hlt|]. split; [exact Hc'|]. split.
        -- constructor; [|exact Hmax].
           apply Qlt_le_weak. by eapply Qle_lt_trans.
        -- intros [|j] c'' Hj Hlook; simpl in Hlook.
           ++ injection Hlook as <-. by eapply Qle_lt_trans.
           ++ apply (Hfirst j); [lia | exact Hlook].
Qed.

Lemma bestLoop_is_Some now st cs b bs :
  is_Some b -> is_Some (bestLoop now st cs b bs).
Proof.
  revert b bs. induction cs as [|c cs IH]; intros b bs Hb; simpl; [done|].
  destruct (Qgtb (score now st c) bs); apply IH; eauto.
Qed.

Lemma getBestClient_None now st :
  getBestClient now st = None <-> clients st = [].
Proof.
  unfold getBestClient. split.
  - intros H. destruct (clients st) as [|c cs] eqn:E; [done|].
    destruct (bestLoop_is_Some now st (c :: cs) (head (c :: cs)) (-1)%Q)
      as [x Hx]; [simpl; eauto|]. congruence.
  - intros ->. reflexivity.
Qed.





End CredentialSelection.

Section RetryLoop.
Import GeminiClient.

Variable cfg : Config.
Variable retries : Z.
Variable env : Z -> AttemptEnv.

Lemma upto_S a n : upto a (S n) = a :: upto (a + 1) n.
Proof.
  unfold upto. simpl. f_equal; [lia|].
  rewrite <- seq_shift, map_map. apply map_ext. intros i. lia.
Qed.

Lemma attemptNumbers_upto r : attemptNumbers r = upto 0 (Z.to_nat (r + 1)).
Proof. reflexivity. Qed.

Lemma beginAttempt_clients now st c st1 :
  beginAttempt now st = Some (c, st1) -> clients st1 = clients st.
Proof.
  unfold beginAttempt. destruct (getBestClient now st); [|discriminate].
  by intros [= _ <-].
Qed.

Lemma failAttempt_clients now st c st1 :
  failAttempt now st = Some (c, st1) -> clients st1 = clients st.
Proof.
  unfold failAttempt. destruct (getBestClient now st); [|discriminate].
  by intros [= _ <-].
Qed.

Lemma beginAttempt_is_Some now st :
  clients st <> [] -> is_Some (beginAttempt now st).
Proof.
  intros Hne. unfold beginAttempt.
  destruct (getBestClient now st) eqn:E; [eauto|].
  by apply getBestClient_None in E.
Qed.

Lemma failAttempt_is_Some now st :
  clients st <> [] -> is_Some (failAttempt now st).
Proof.
  intros Hne. unfold failAttempt.
  destruct (getBestClient now st) eqn:E; [eauto|].
  by apply getBestClient_None in E.
Qed.

Lemma retryLoop_shape n : forall a st lastError,
  clients st <> [] ->
  a + Z.of_nat n = retries + 1 ->
  loopShape cfg retries env a n
    (retryLoop cfg retries env (upto a n) st lastError).
Proof.
  induction n as [|n IH]; intros a st lastError Hcs Han.
  - unfold loopShape. simpl. split; [lia|]. split; [lia|].
    split; [intros i e Hi; by rewrite lookup_nil in Hi|].
    intros text. split; [discriminate|]. intros (e & He & _). discriminate.
  - rewrite upto_S. cbn [retryLoop].
    destruct (beginAttempt_is_Some (t_select (env a)) st Hcs) as [[c st1] Hb].
    rewrite Hb. pose proof (beginAttempt_clients _ _ _ _ Hb) as Hcs1.
    destruct (validate (outcome (env a))) as [text|message] eqn:Hv.
    + (* the attempt succeeds *)
      unfold loopShape. cbn [log result]. split; [done|].
      split; [simpl; lia|]. split.
      * intros [|i] e Hi; [|by rewrite lookup_cons, lookup_nil in Hi].
        injection Hi as <-. cbn. rewrite Z.add_0_r.
        unfold failureOf. rewrite Hv.
        split; [reflexivity|]. split; [reflexivity|].
        split; [|reflexivity]. split; [lia|]. intros [? _]. done.
      * intros text'. cbn. split.
        -- intros [= <-]. eexists. split; [reflexivity|]. exact Hv.
        -- intros (e & [= <-] & He). cbn in He. congruence.
    + (* the attempt fails *)
      assert (Hcs1' : clients st1 <> []) by congruence.
      destruct (failAttempt_is_Some (t_settle (env a)) st1 Hcs1')
        as [[c' st2] Hf].
      rewrite Hf. pose proof (failAttempt_clients _ _ _ _ Hf) as Hcs2.
      assert (Hcs2' : clients st2 <> []) by congruence.
      destruct (negb (isRetryableError message) && (a =? retries)) eqn:Hbrk.
      * (* non-retryable on the last attempt: break *)
        apply andb_true_iff in Hbrk as [_ Hlast]. apply Z.eqb_eq in Hlast.
        unfold loopShape. cbn [log result logged exhausted].
        split; [done|]. split; [simpl; lia|]. split.
        -- intros [|i] e Hi; [|by rewrite lookup_cons, lookup_nil in Hi].
           injection Hi as <-. cbn. rewrite Z.add_0_r.
           unfold failureOf. rewrite Hv.
           split; [reflexivity|]. split; [reflexivity|].
           split; [|reflexivity]. split; [lia|]. intros [_ ?]. lia.
        -- intros text'. cbn. split; [discriminate|].
           intros (e & [= <-] & He). cbn in He. congruence.
      * (* sleep if attempts remain, then go on *)
        specialize (IH (a + 1) st2 (Some message) Hcs2' ltac:(lia)).
        set (r := retryLoop cfg retries env (upto (a + 1) n) st2 (Some message)) in *.
        destruct IH as (IH1 & IH2 & IH3 & IH4).
        assert (Hnext : (1 < S (length (log r)))%nat <-> a < retries).
        { split.
          - intros Hlen. lia.
          - intros Ha. assert (Hn : (0 < n)%nat) by lia.
            specialize (IH1 Hn). destruct (log r); [done|simpl; lia]. }
        unfold loopShape. cbn [log result logged].
        split; [done|]. split; [simpl; lia|]. split.
        -- intros [|i] e Hi.
           ++ injection Hi as <-. cbn [attempt failure slept length].
              rewrite Z.add_0_r. unfold failureOf. rewrite Hv.
              split; [reflexivity|]. split; [reflexivity|]. split.
              ** rewrite Hnext. split; [done|]. intros [_ ?]. done.
              ** destruct (Z.ltb_spec a retries) as [Ha|Ha];
                   destruct (Nat.ltb_spec 1 (S (length (log r)))) as [Hl|Hl];
                   [reflexivity | apply Hnext in Ha; lia
                   | apply Hnext in Hl; lia | reflexivity].
           ++ rewrite lookup_cons in Hi.
              destruct (IH3 i e Hi) as (Hat & Hfl & Hmore & Hsl).
              replace (a + Z.of_nat (S i)) with (a + 1 + Z.of_nat i) by lia.
              split; [exact Hat|]. split; [exact Hfl|]. split.
              ** rewrite <- Hmore. cbn [length]. lia.
              ** rewrite Hsl. cbn [length].
                 destruct (Nat.ltb_spec (S i) (length (log r)));
                   destruct (Nat.ltb_spec (S (S i)) (S (length (log r))));
                   try reflexivity; lia.
      -- intros text'. rewrite IH4.
         destruct (log r) as [|e0 l0] eqn:El.
         ++ split; [intros (e & He & _); discriminate|].
            intros (e & [= <-] & He). cbn in He. congruence.
         ++ reflexivity.
Qed.


Lemma generateContent_shape maxRetriesArg st :
  retries = retryBudget cfg maxRetriesArg ->
  clients st <> [] -> 0 <= retries + 1 ->
  loopShape cfg retries env 0 (Z.to_nat (retries + 1))
    (generateContent cfg env maxRetriesArg st).
Proof.
  intros Hret Hcs Hr. unfold generateContent. cbv zeta. rewrite <- Hret.
  rewrite attemptNumbers_upto. apply retryLoop_shape; [exact Hcs | lia].
Qed.

Lemma generateContent_no_attempt maxRetriesArg st :
  retries = retryBudget cfg maxRetriesArg ->
  clients st = [] \/ retries + 1 <= 0 ->
  log (generateContent cfg env maxRetriesArg st) = []
  /\ forall text, result (generateContent cfg env maxRetriesArg st) <> Returned text.
Proof.
  intros Hret H. unfold generateContent. cbv zeta. rewrite <- Hret.
  destruct (attemptNumbers retries) as [|a rest] eqn:E.
  - simpl. split; [reflexivity | discriminate].
  - destruct H as [Hcs|Hr].
    + simpl. unfold beginAttempt.
      replace (getBestClient (t_select (env a)) st) with (@None nat)
        by (symmetry; by apply getBestClient_None).
      split; [reflexivity | discriminate].
    + unfold attemptNumbers in E.
      replace (Z.to_nat (retries + 1)) with 0%nat in E by lia.
      discriminate.
Qed.


End RetryLoop.


Section BackendClient.
Import GeminiClient.

(** The facts about one run of [generateContent] that the statements below
    share. *)
Lemma generateContent_entries cfg env maxRetriesArg st i e :
  log (generateContent cfg env maxRetriesArg st) !! i = Some e ->
  let retries := retryBudget cfg maxRetriesArg in
  let r := generateContent cfg env maxRetriesArg st in
  clients st <> [] /\ 0 <= retries
  /\ attempt e = Z.of_nat i
  /\ failure e = failureOf (outcome (env (Z.of_nat i)))
  /\ ((S i < length (log r))%nat <-> failure e <> None /\ Z.of_nat i < retries)
  /\ slept e = (if (S i <? length (log r))%nat
                then Some (backoff cfg (Z.of_nat i)) else None)
  /\ (length (log r) <= Z.to_nat (retries + 1))%nat.
Proof.
  intros He retries r.
  destruct (decide (clients st = [])) as [Hcs|Hcs].
  { destruct (generateContent_no_attempt cfg retries env maxRetriesArg st eq_refl)
      as [Hnil _]; [by left|].
    rewrite Hnil in He. by rewrite lookup_nil in He. }
  destruct (Z_lt_le_dec (retries + 1) 1) as [Hr|Hr].
  { destruct (generateContent_no_attempt cfg retries env maxRetriesArg st eq_refl)
      as [Hnil _]; [right; lia|].
    rewrite Hnil in He. by rewrite lookup_nil in He. }
  destruct (generateContent_shape cfg retries env maxRetriesArg st eq_refl Hcs)
    as (_ & H2 & H3 & _); [lia|].
  destruct (H3 i e He) as (Ha & Hf & Hmore & Hs).
  rewrite Z.add_0_l in *.
  split; [exact Hcs|]. split; [lia|]. split; [exact Ha|]. split; [exact Hf|].
  split; [exact Hmore|]. split; [exact Hs | exact H2].
Qed.





(** C4, as stated, fails: with the default budget of three retries, a first
    attempt refused for an invalid key (not a retryable error) is followed
    by a sleep of one second and a second attempt. *)
Lemma C4_counterexample :
  ~ (forall cfg env maxRetriesArg st i e message,
       log (generateContent cfg env maxRetriesArg st) !! i = Some e ->
       failure e = Some message ->
       isRetryableError message = false ->
       slept e = None
       /\ length (log (generateContent cfg env maxRetriesArg st)) = S i).
Proof.
  intros H.
  destruct (H defaultConfig invalidKeyThenOk None twoSlots 0%nat
              {| attempt := 0; client := 0%nat;
                 failure := Some "API key not valid";
                 charged := Some 0%nat; slept := Some 1000 |}
              "API key not valid") as [Hs _].
  - vm_compute. reflexivity.
  - reflexivity.
  - vm_compute. reflexivity.
  - discriminate.
Qed.

(** C4, as the code has it.  Whether a failed attempt is retried depends on
    the attempts left, not on the class of its error: a failure on the last
    attempt of the budget ends the loop without a sleep, and a failure on
    any earlier attempt, retryable or not, is followed by the backoff sleep
    and by the next attempt. *)
Theorem C4_failed_attempts cfg env maxRetriesArg st i e message :
  let retries := retryBudget cfg maxRetriesArg in
  let r := generateContent cfg env maxRetriesArg st in
  log r !! i = Some e ->
  failure e = Some message ->
  attempt e <= retries
  /\ (attempt e = retries -> slept e = None /\ length (log r) = S i)
  /\ (attempt e < retries ->
      slept e = Some (retryDelay cfg * 2 ^ attempt e)
      /\ exists e', log r !! S i = Some e' /\ attempt e' = attempt e + 1).
Proof.
  intros retries r He Hfail.
  destruct (generateContent_entries _ _ _ _ _ _ He)
    as (_ & _ & Ha & _ & Hmore & Hs & Hlen).
  fold r retries in Hmore, Hs, Hlen.
  pose proof (lookup_lt_Some _ _ _ He) as Hi.
  rewrite Ha. split; [lia|]. split.
  - intros Hlast.
    assert (Hno : ~ (S i < length (log r))%nat) by (rewrite Hmore; lia).
    split; [|lia]. rewrite Hs.
    destruct (Nat.ltb_spec (S i) (length (log r))); [lia | reflexivity].
  - intros Hmid.
    assert (Hyes : (S i < length (log r))%nat)
      by (apply Hmore; split; [congruence | exact Hmid]).
    split.
    + rewrite Hs. destruct (Nat.ltb_spec (S i) (length (log r))); [reflexivity | lia].
    + destruct (lookup_lt_is_Some_2 _ _ Hyes) as [e' He'].
      exists e'. split; [exact He'|].
      destruct (generateContent_entries _ _ _ _ _ _ He') as (_ & _ & Ha' & _).
      lia.
Qed.

Lemma C4_failed_attempts_witness :
  let r := generateContent defaultConfig invalidKeyThenOk None twoSlots in
  exists e, log r !! 0%nat = Some e
            /\ failure e = Some "API key not valid"
            /\ isRetryableError "API key not valid" = false
            /\ slept e = Some 1000
            /\ exists e', log r !! 1%nat = Some e' /\ attempt e' = 1.
Proof.
  intros r.
  exists {| attempt := 0; client := 0%nat; failure := Some "API key not valid";
            charged := Some 0%nat; slept := Some 1000 |}.
  assert (He : log r !! 0%nat
               = Some {| attempt := 0; client := 0%nat;
                         failure := Some "API key not valid";
                         charged := Some 0%nat; slept := Some 1000 |})
    by (vm_compute; reflexivity).
  split; [exact He|]. split; [reflexivity|]. split; [vm_compute; reflexivity|].
  destruct (C4_failed_attempts defaultConfig invalidKeyThenOk None twoSlots
              0%nat _ "API key not valid" He eq_refl) as (_ & _ & Hmid).
  destruct Hmid as [Hs He']; [reflexivity|].
  split; [exact Hs | exact He'].
Defined.

(** C5 on a concrete run.  Slot 0 issues a request that times out after
    thirty seconds; by then slot 1 has the better score, and the [catch]
    block, which asks [getBestClient] again, increments the error count of
    slot 1 and leaves that of slot 0 as it was. *)
Theorem C5_error_charged_to_other_slot :
  let r := generateContent defaultConfig timeoutThenOk (Some 1) driftingPool in
  (exists e, log r !! 0%nat = Some e
             /\ client e = 0%nat
             /\ failure e = Some "Request timeout"
             /\ charged e = Some 1%nat)
  /\ countOf (errorCounts (final r)) 0 = countOf (errorCounts driftingPool) 0
  /\ countOf (errorCounts (final r)) 1
     = (countOf (errorCounts driftingPool) 1 + 1)%nat.
Proof.
  intros r. split; [|split].
  - eexists. split; [vm_compute; reflexivity|].
    split; [reflexivity|]. split; reflexivity.
  - vm_compute. reflexivity.
  - vm_compute. reflexivity.
Qed.

End BackendClient.


Section Dispatcher.
Import ChatbotService.

Variable personaName : string.

Lemma finish_consistent s aborted st :
  consistentBut s st -> consistent (finish s aborted st).
Proof.
  intros (Hnd & Hs & Hpm & Hq). unfold consistent, finish, senders in *. simpl.
  split; [exact Hnd|]. split.
  - intros s'. rewrite elem_of_difference, elem_of_singleton, Hpm.
    split; [tauto|]. intros Hin. split; [by right|]. intros ->. done.
  - intros s' Hsome. rewrite elem_of_difference, elem_of_singleton.
    destruct (decide (s' = s)) as [->|Hne].
    + rewrite lookup_delete_eq in Hsome. by destruct Hsome.
    + rewrite lookup_delete_ne in Hsome by done. split; [by apply Hq | done].
Qed.

Lemma loopHead_consistent clock s st :
  consistentBut s st -> consistent (loopHead personaName clock s st).
Proof.
  intros Hc. unfold loopHead.
  destruct (messageQueue st !! s) as [[|m rest]|] eqn:Eq;
    try by apply finish_consistent.
  destruct (startHandler personaName clock m (rateLimiter st)) as [v rl].
  destruct Hc as (Hnd & Hs & Hpm & Hq).
  unfold consistent, senders in *. simpl. rewrite fmap_app. simpl.
  split; [|split].
  - apply NoDup_app. split; [exact Hnd|]. split.
    + intros x Hx Hx'. apply list_elem_of_singleton in Hx'. by subst.
    + apply NoDup_singleton.
  - intros s'. rewrite Hpm, elem_of_app, list_elem_of_singleton. tauto.
  - intros s' Hsome. destruct (decide (s' = s)) as [->|Hne].
    + apply Hpm. by left.
    + rewrite lookup_insert_ne in Hsome by done. by apply Hq.
Qed.

Lemma queueMessage_consistent clock m st :
  consistent st -> consistent (queueMessage personaName clock m st).
Proof.
  intros (Hnd & Hpm & Hq). unfold queueMessage. cbn [processingMessages].
  destruct (decide (sender m ∈ processingMessages st)) as [Hin|Hout].
  - unfold consistent, senders in *. simpl. split; [exact Hnd|].
    split; [exact Hpm|]. intros s' Hsome.
    destruct (decide (s' = sender m)) as [->|Hne]; [exact Hin|].
    rewrite lookup_insert_ne in Hsome by done. by apply Hq.
  - apply loopHead_consistent. unfold consistentBut, senders in *. simpl.
    split; [exact Hnd|]. split; [by rewrite <- Hpm|]. split.
    + intros s'. rewrite elem_of_union, elem_of_singleton, Hpm. tauto.
    + intros s' Hsome. rewrite elem_of_union, elem_of_singleton.
      destruct (decide (s' = sender m)) as [->|Hne]; [by left|].
      rewrite lookup_insert_ne in Hsome by done. right. by apply Hq.
Qed.

Lemma workers_split (ws : list Worker) i w :
  ws !! i = Some w ->
  ws = take i ws ++ w :: drop (S i) ws /\ delete i ws = take i ws ++ drop (S i) ws.
Proof.
  intros Hw. split.
  - symmetry. by apply take_drop_middle.
  - apply delete_take_drop.
Qed.

Lemma resume_consistentBut i w st :
  consistent st -> workers st !! i = Some w ->
  forall js,
    consistentBut (w_sender w)
      {| messageQueue := messageQueue st;
         processingMessages := processingMessages st;
         rateLimiter := rateLimiter st;
         workers := delete i (workers st);
         journal := js |}.
Proof.
  intros (Hnd & Hpm & Hq) Hw js.
  destruct (workers_split _ _ _ Hw) as [Hsplit Hdel].
  unfold consistentBut, senders in *. simpl. rewrite Hdel.
  rewrite Hsplit, fmap_app, fmap_cons in Hnd.
  apply NoDup_app in Hnd as (Hnd1 & Hdisj & Hnd2).
  apply NoDup_cons in Hnd2 as [Hnotin Hnd2].
  assert (Hall : forall s', s' ∈ w_sender <$> workers st
                            <-> s' = w_sender w
                                \/ s' ∈ (w_sender <$> take i (workers st))
                                         ++ (w_sender <$> drop (S i) (workers st))).
  { intros s'. rewrite Hsplit at 1.
    rewrite fmap_app, fmap_cons, !elem_of_app, elem_of_cons. tauto. }
  rewrite fmap_app. split; [|split; [|split]].
  - apply NoDup_app. split; [exact Hnd1|]. split; [|exact Hnd2].
    intros x Hx Hx'. apply (Hdisj x Hx). by right.
  - rewrite elem_of_app. intros [Hin|Hin]; [|done].
    apply (Hdisj _ Hin). by left.
  - intros s'. rewrite Hpm. apply Hall.
  - exact Hq.
Qed.

Lemma resume_consistent clock i o st :
  consistent st -> consistent (resume personaName clock i o st).
Proof.
  intros Hc. unfold resume.
  destruct (workers st !! i) as [w|] eqn:Hw; [|exact Hc].
  destruct (rejects (settlement (w_verdict w) o)).
  - apply finish_consistent. by apply resume_consistentBut.
  - apply loopHead_consistent. by apply resume_consistentBut.
Qed.

Lemma run_snoc evs ev st :
  run personaName (evs ++ [ev]) st = step personaName (run personaName evs st) ev.
Proof. unfold run. by rewrite foldl_app. Qed.

Lemma run_consistent evs : consistent (run personaName evs initial).
Proof.
  induction evs as [|ev evs IH] using rev_ind.
  - unfold consistent, senders. simpl. split; [constructor|].
    split; [set_solver|]. intros s [x Hx]. by rewrite lookup_empty in Hx.
  - rewrite run_snoc. destruct ev as [clock m|clock i o]; simpl.
    + by apply queueMessage_consistent.
    + by apply resume_consistent.
Qed.

(** The handlers of other senders leave a window alone. *)
Lemma startHandler_isolated clock m rl s :
  sender m <> s -> (startHandler personaName clock m rl).2 !! s = rl !! s.
Proof.
  intros Hne. unfold startHandler, isRateLimited, updateRateLimit.
  destruct (notAddressed personaName m); [reflexivity|].
  destruct (rl !! sender m) as [w|] eqn:Hw; cbn -[Nat.leb Z.ltb Z.add];
    repeat (match goal with |- context [if ?b then _ else _] => destruct b end);
    cbn [fst snd]; rewrite ?lookup_insert_ne by done; reflexivity.
Qed.

Lemma finish_keyed s aborted st : keyed st -> keyed (finish s aborted st).
Proof.
  intros Hk s' q. unfold finish. simpl. intros Hq.
  apply lookup_delete_Some in Hq as [_ Hq]. by apply Hk.
Qed.

Lemma loopHead_keyed clock s st : keyed st -> keyed (loopHead personaName clock s st).
Proof.
  intros Hk. unfold loopHead.
  destruct (messageQueue st !! s) as [[|m rest]|] eqn:Eq;
    try by apply finish_keyed.
  destruct (startHandler personaName clock m (rateLimiter st)) as [v rl].
  intros s' q. simpl. intros Hq.
  apply lookup_insert_Some in Hq as [[<- <-]|[_ Hq]]; [|by apply Hk].
  specialize (Hk _ _ Eq). by apply Forall_cons in Hk as [_ Hk].
Qed.

Lemma queueMessage_keyed clock m st :
  keyed st -> keyed (queueMessage personaName clock m st).
Proof.
  intros Hk.
  assert (Hk1 : keyed
            {| messageQueue :=
                 <[sender m := pending (sender m) st ++ [m]]> (messageQueue st);
               processingMessages := processingMessages st;
               rateLimiter := rateLimiter st;
               workers := workers st;
               journal := journal st |}).
  { intros s' q. simpl. intros Hq.
    apply lookup_insert_Some in Hq as [[<- <-]|[_ Hq]]; [|by apply Hk].
    apply Forall_app. split; [|by constructor].
    unfold pending. destruct (messageQueue st !! sender m) eqn:E; [|constructor].
    by apply Hk. }
  unfold queueMessage. cbn [processingMessages].
  destruct (decide (sender m ∈ processingMessages st)); [exact Hk1|].
  unfold processQueue. apply loopHead_keyed. exact Hk1.
Qed.

Lemma resume_keyed clock i o st :
  keyed st -> keyed (resume personaName clock i o st).
Proof.
  intros Hk. unfold resume. destruct (workers st !! i) as [w|]; [|exact Hk].
  destruct (rejects (settlement (w_verdict w) o));
    [apply finish_keyed | apply loopHead_keyed]; exact Hk.
Qed.

Lemma run_keyed evs : keyed (run personaName evs initial).
Proof.
  induction evs as [|ev evs IH] using rev_ind.
  - intros s q Hq. simpl in Hq. by rewrite lookup_empty in Hq.
  - rewrite run_snoc. destruct ev as [clock m|clock i o]; simpl.
    + by apply queueMessage_keyed.
    + by apply resume_keyed.
Qed.



Lemma activeWorkers_count (ws : list Worker) s :
  NoDup (w_sender <$> ws) ->
  (length (filter (fun w => w_sender w = s) ws) <= 1)%nat
  /\ (s ∈ w_sender <$> ws <-> length (filter (fun w => w_sender w = s) ws) = 1%nat).
Proof.
  induction ws as [|w ws IH]; intros Hnd.
  - simpl. split; [lia|]. split; [intros H; inversion H | discriminate].
  - rewrite fmap_cons in Hnd. apply NoDup_cons in Hnd as [Hnotin Hnd].
    destruct (IH Hnd) as [IHle IHiff]. rewrite fmap_cons, elem_of_cons.
    destruct (decide (w_sender w = s)) as [Heq|Hne].
    + rewrite filter_cons_True by done. simpl. subst s.
      assert (length (filter (fun w' => w_sender w' = w_sender w) ws) = 0%nat)
        as ->.
      { apply Nat.le_1_r in IHle as [H0|H1]; [exact H0|].
        by apply IHiff in H1. }
      split; [lia|]. split; [done | by left].
    + rewrite filter_cons_False by done. split; [exact IHle|].
      rewrite <- IHiff. split; [intros [?|?]; [congruence | done] | by right].
Qed.

Lemma activeWorkers_marker st s :
  consistent st ->
  (length (activeWorkers s st) <= 1)%nat
  /\ (s ∈ processingMessages st <-> length (activeWorkers s st) = 1%nat)
  /\ (s ∉ processingMessages st <-> length (activeWorkers s st) = 0%nat).
Proof.
  intros (Hnd & Hpm & _). unfold activeWorkers.
  destruct (activeWorkers_count (workers st) s Hnd) as [Hle Hiff].
  split; [exact Hle|]. split; [by rewrite Hpm|].
  rewrite Hpm, Hiff. lia.
Qed.


Lemma queueMessage_active clock m st :
  sender m ∈ processingMessages st ->
  queueMessage personaName clock m st
  = {| messageQueue :=
         <[sender m := pending (sender m) st ++ [m]]> (messageQueue st);
       processingMessages := processingMessages st;
       rateLimiter := rateLimiter st;
       workers := workers st;
       journal := journal st |}.
Proof.
  intros Hin. unfold queueMessage. cbn [processingMessages].
  destruct (decide (sender m ∈ processingMessages st)); done.
Qed.

Lemma queueMessage_idle clock m st :
  sender m ∉ processingMessages st ->
  messageQueue st !! sender m = None ->
  queueMessage personaName clock m st
  = {| messageQueue := <[sender m := []]> (messageQueue st);
       processingMessages := {[sender m]} ∪ processingMessages st;
       rateLimiter := (startHandler personaName clock m (rateLimiter st)).2;
       workers :=
         workers st
         ++ [{| w_sender := sender m; w_message := m;
                w_verdict := (startHandler personaName clock m (rateLimiter st)).1 |}];
       journal :=
         journal st
         ++ [WorkerStarted (sender m);
             Handling m (startHandler personaName clock m (rateLimiter st)).1] |}.
Proof.
  intros Hout Hq. unfold queueMessage. cbn [processingMessages].
  destruct (decide (sender m ∈ processingMessages st)); [done|].
  unfold processQueue, loopHead, pending. cbn [messageQueue rateLimiter workers journal processingMessages].
  rewrite Hq, lookup_insert_eq. simpl.
  destruct (startHandler personaName clock m (rateLimiter st)) as [v rl]. simpl.
  rewrite insert_insert_eq, <- app_assoc. reflexivity.
Qed.

Lemma loopHead_idle clock s st :
  pending s st = [] -> loopHead personaName clock s st = finish s false st.
Proof.
  unfold pending, loopHead.
  destruct (messageQueue st !! s) as [[|m rest]|]; simpl; done.
Qed.

Lemma loopHead_next clock s st m rest :
  messageQueue st !! s = Some (m :: rest) ->
  loopHead personaName clock s st
  = {| messageQueue := <[s := rest]> (messageQueue st);
       processingMessages := processingMessages st;
       rateLimiter := (startHandler personaName clock m (rateLimiter st)).2;
       workers :=
         workers st
         ++ [{| w_sender := s; w_message := m;
                w_verdict := (startHandler personaName clock m (rateLimiter st)).1 |}];
       journal :=
         journal st
         ++ [Handling m (startHandler personaName clock m (rateLimiter st)).1] |}.
Proof.
  intros Hq. unfold loopHead. rewrite Hq.
  by destruct (startHandler personaName clock m (rateLimiter st)).
Qed.



End Dispatcher.

Section DispatcherRuns.
Import ChatbotService.


(** C2 on a concrete run.  Two messages of one sender are queued; the
    handling of the first throws, and so does the sending of the apology in
    the [catch] block of the handler.  The rejection leaves the loop of
    [_processQueue] through the [catch] around it, and [finally] deletes
    the queue: the second message is never handled.  When the apology is
    delivered instead, the worker goes on to the second message. *)
Theorem C2_rejection_discards_queue :
  let queued := run "Sara" (take 2 (failingFirst false)) initial in
  let st := run "Sara" (failingFirst false) initial in
  let st' := run "Sara" (failingFirst true) initial in
  pending "alice" queued = [fromAlice "m2"]
  /\ handled st = [(fromAlice "m1", Accepted)]
  /\ messageQueue st !! "alice" = None
  /\ workers st = []
  /\ last (journal st) = Some (WorkerEnded "alice" true)
  /\ handled st' = [(fromAlice "m1", Accepted); (fromAlice "m2", Accepted)].
Proof. vm_compute. repeat split; reflexivity. Qed.

End DispatcherRuns.

Section RateLimiter.
Import ChatbotService.

Variable personaName : string.

Lemma handleAll_cons clock m hs rl :
  handleAll personaName ((clock, m) :: hs) rl
  = ((startHandler personaName clock m rl).1
       :: (handleAll personaName hs (startHandler personaName clock m rl).2).1,
     (handleAll personaName hs (startHandler personaName clock m rl).2).2).
Proof.
  simpl. destruct (startHandler personaName clock m rl) as [v rl1].
  cbn [fst snd]. by destruct (handleAll personaName hs rl1).
Qed.

(** A handler that finds the window of its sender open. *)
Lemma startHandler_open clock m rl w :
  notAddressed personaName m = false ->
  rl !! sender m = Some w ->
  tCheck clock <= resetTime w ->
  ((count w < 10)%nat ->
   (startHandler personaName clock m rl).1 = Accepted
   /\ (startHandler personaName clock m rl).2 !! sender m
      = Some {| count := S (count w); resetTime := resetTime w |})
  /\ ((10 <= count w)%nat ->
      (startHandler personaName clock m rl).1 = Limited
      /\ (startHandler personaName clock m rl).2 !! sender m = Some w).
Proof.
  intros Hadd Hw Hopen. unfold startHandler, isRateLimited. rewrite Hadd, Hw.
  cbn -[Nat.leb Z.ltb Z.add].
  destruct (Z.ltb_spec (resetTime w) (tCheck clock)) as [Hexp|_]; [lia|].
  split; intros Hc.
  - destruct (Nat.leb_spec 10 (count w)) as [?|_]; [lia|]. cbn [fst snd].
    split; [reflexivity|]. unfold updateRateLimit.
    rewrite !lookup_insert_eq. reflexivity.
  - destruct (Nat.leb_spec 10 (count w)) as [_|?]; [|lia]. cbn [fst snd].
    split; [reflexivity|]. by rewrite lookup_insert_eq.
Qed.

(** A handler that finds no window for its sender, or an expired one. *)
Lemma startHandler_closed clock m rl :
  notAddressed personaName m = false ->
  (rl !! sender m = None
   \/ exists w, rl !! sender m = Some w /\ resetTime w < tCheck clock) ->
  (startHandler personaName clock m rl).1 = Accepted
  /\ (startHandler personaName clock m rl).2 !! sender m
     = Some {| count := 1;
               resetTime := match rl !! sender m with
                            | None => tUpdate clock + 60000
                            | Some _ => tCheck clock + 60000
                            end |}.
Proof.
  intros Hadd [Hnone|(w & Hw & Hexp)];
    unfold startHandler, isRateLimited; rewrite Hadd.
  - rewrite Hnone. cbn -[Nat.leb Z.ltb Z.add]. rewrite Z.ltb_irrefl.
    cbn -[Z.add]. split; [reflexivity|]. unfold updateRateLimit.
    rewrite Hnone, lookup_insert_eq. reflexivity.
  - rewrite Hw. cbn -[Nat.leb Z.ltb Z.add].
    destruct (Z.ltb_spec (resetTime w) (tCheck clock)) as [_|?]; [|lia].
    cbn -[Z.add]. split; [reflexivity|]. unfold updateRateLimit.
    rewrite !lookup_insert_eq. reflexivity.
Qed.

Lemma handleAll_open s hs : forall rl c W,
  rl !! s = Some {| count := c; resetTime := W |} ->
  Forall (fun cm => sender cm.2 = s /\ notAddressed personaName cm.2 = false
                    /\ tCheck cm.1 <= W) hs ->
  (c + length hs <= 10)%nat ->
  (handleAll personaName hs rl).1 = replicate (length hs) Accepted
  /\ (handleAll personaName hs rl).2 !! s
     = Some {| count := c + length hs; resetTime := W |}.
Proof.
  induction hs as [|[clock m] hs IH]; intros rl c W Hw Hall Hlen.
  - simpl. rewrite Nat.add_0_r. done.
  - apply Forall_cons in Hall as [(Hs & Hadd & Ht) Hall]. simpl in Hs, Hadd, Ht.
    simpl in Hlen. rewrite handleAll_cons. cbn [fst snd length replicate].
    subst s.
    destruct (startHandler_open clock m rl _ Hadd Hw Ht) as [Hacc _].
    destruct Hacc as [Hv Hrl]; [simpl; lia|]. simpl in Hrl.
    destruct (IH _ _ _ Hrl Hall) as [IHv IHrl]; [lia|].
    rewrite Hv, IHv, IHrl. split; [reflexivity|]. do 2 f_equal. lia.
Qed.

Lemma handleAll_app hs hs' rl :
  (handleAll personaName (hs ++ hs') rl).1
  = (handleAll personaName hs rl).1
    ++ (handleAll personaName hs' (handleAll personaName hs rl).2).1
  /\ (handleAll personaName (hs ++ hs') rl).2
     = (handleAll personaName hs' (handleAll personaName hs rl).2).2.
Proof.
  revert rl. induction hs as [|[clock m] hs IH]; intros rl; [done|].
  rewrite <- app_comm_cons, !handleAll_cons. cbn [fst snd].
  destruct (IH (startHandler personaName clock m rl).2) as [-> ->]. done.
Qed.

(** C7, as the code has it.  The limiter is consulted when the worker takes
    a message up, not when the message is submitted.  For a sender whose
    window is closed (it has none yet, or its window has expired), the
    first handler opens a window of sixty seconds; of eleven messages
    addressed to the bot whose handlers start before the window has run
    out, the first ten are taken up and the eleventh is dropped: its
    handler returns at once, nothing is sent, and the message has left the
    queue.  The first handler to start after the window has run out resets
    the counter, and its message is taken up. *)
Theorem C7_rate_window rl s clock1 m1 rest o :
  length rest = 10%nat ->
  let windowEnd := match rl !! s with
                   | None => tUpdate clock1 + 60000
                   | Some _ => tCheck clock1 + 60000
                   end in
  (rl !! s = None \/ exists w, rl !! s = Some w /\ resetTime w < tCheck clock1) ->
  Forall (fun cm => sender cm.2 = s /\ notAddressed personaName cm.2 = false)
         ((clock1, m1) :: rest) ->
  Forall (fun cm => tCheck cm.1 <= windowEnd) rest ->
  let r := handleAll personaName ((clock1, m1) :: rest) rl in
  r.1 = replicate 10 Accepted ++ [Limited]
  /\ r.2 !! s = Some {| count := 10; resetTime := windowEnd |}
  /\ settlement Limited o = {| delivered := []; rejects := false |}
  /\ (forall st clock m rest',
        messageQueue st !! s = Some (m :: rest') ->
        pending s (loopHead personaName clock s st) = rest')
  /\ (forall clock m,
        sender m = s -> notAddressed personaName m = false ->
        windowEnd < tCheck clock ->
        (startHandler personaName clock m r.2).1 = Accepted
        /\ (startHandler personaName clock m r.2).2 !! s
           = Some {| count := 1; resetTime := tCheck clock + 60000 |}).
Proof.
  intros Hlen windowEnd Hclosed Hall Htimes r.
  apply Forall_cons in Hall as [[Hs1 Hadd1] Hall]. simpl in Hs1, Hadd1.
  assert (Hfirst : (startHandler personaName clock1 m1 rl).1 = Accepted
                   /\ (startHandler personaName clock1 m1 rl).2 !! s
                      = Some {| count := 1; resetTime := windowEnd |}).
  { unfold windowEnd. rewrite <- Hs1. apply startHandler_closed; [done|].
    by rewrite Hs1. }
  destruct Hfirst as [Hv1 Hrl1].
  set (rl1 := (startHandler personaName clock1 m1 rl).2) in *.
  (* the next nine, then the eleventh *)
  assert (Hrest : rest = take 9 rest ++ drop 9 rest) by (by rewrite take_drop).
  destruct (drop 9 rest) as [|[clock11 m11] tl] eqn:Hdrop.
  { apply (f_equal length) in Hdrop. rewrite length_drop in Hdrop.
    simpl in Hdrop. lia. }
  assert (tl = []) as ->.
  { apply (f_equal length) in Hdrop. rewrite length_drop in Hdrop.
    simpl in Hdrop. destruct tl; [done | simpl in Hdrop; lia]. }
  assert (Hlen9 : length (take 9 rest) = 9%nat) by (rewrite length_take; lia).
  rewrite Hrest in Hall, Htimes.
  apply Forall_app in Hall as [Hall9 Hall11].
  apply Forall_app in Htimes as [Ht9 Ht11].
  apply Forall_cons in Hall11 as [[Hs11 Hadd11] _].
  apply Forall_cons in Ht11 as [Ht11 _]. simpl in Hs11, Hadd11, Ht11.
  destruct (handleAll_open s (take 9 rest) rl1 1%nat windowEnd Hrl1)
    as [Hv9 Hrl9]; [|lia|].
  { rewrite Forall_forall in Hall9, Ht9. apply Forall_forall. intros cm Hcm.
    destruct (Hall9 cm Hcm). split; [done|]. split; [done|]. by apply Ht9. }
  rewrite Hlen9 in Hv9, Hrl9. simpl in Hrl9.
  set (rl10 := (handleAll personaName (take 9 rest) rl1).2) in *.
  assert (Hw10 : rl10 !! sender m11
                 = Some {| count := 10; resetTime := windowEnd |})
    by (by rewrite Hs11).
  destruct (startHandler_open clock11 m11 rl10 _ Hadd11 Hw10 Ht11) as [_ Hlim].
  destruct Hlim as [Hv11 Hrl11]; [simpl; lia|].
  assert (Hr : r.1 = replicate 10 Accepted ++ [Limited]
               /\ r.2 !! s = Some {| count := 10; resetTime := windowEnd |}).
  { unfold r. rewrite handleAll_cons. cbn [fst snd]. fold rl1. rewrite Hrest.
    destruct (handleAll_app (take 9 rest) [(clock11, m11)] rl1) as [-> ->].
    fold rl10. rewrite handleAll_cons. cbn [fst snd handleAll].
    rewrite Hv1, Hv9, Hv11. split; [reflexivity|]. by rewrite <- Hs11. }
  destruct Hr as [Hr1 Hr2].
  split; [exact Hr1|]. split; [exact Hr2|]. split; [reflexivity|]. split.
  - intros st clock m rest' Hq. rewrite (loopHead_next _ _ _ _ _ _ Hq).
    unfold pending. cbn. by rewrite lookup_insert_eq.
  - intros clock m Hs Hadd Hlate.
    destruct (startHandler_closed clock m r.2 Hadd) as [Hv Hrl].
    + right. eexists. rewrite Hs. split; [exact Hr2 | exact Hlate].
    + split; [exact Hv|]. rewrite Hs in Hrl. by rewrite Hrl, Hr2.
Qed.

End RateLimiter.

Section RateLimiterRuns.
Import ChatbotService.

Lemma C7_rate_window_witness :
  let r := handleAll "Sara" burst ∅ in
  length (drop 1 burst) = 10%nat
  /\ r.1 = replicate 10 Accepted ++ [Limited]
  /\ r.2 !! "alice" = Some {| count := 10; resetTime := 60000 |}.
Proof.
  intros r.
  destruct (C7_rate_window "Sara" ∅ "alice" (at_ 0) (fromAlice "m")
              (drop 1 burst) (Replied "r")) as (Hv & Hw & _).
  - reflexivity.
  - left. reflexivity.
  - apply Forall_forall. intros cm Hcm.
    assert (Hm : cm.2 = fromAlice "m").
    { change (cm ∈ (at_ 0, fromAlice "m") :: drop 1 burst) in Hcm.
      unfold burst in Hcm. cbn in Hcm.
      repeat (apply elem_of_cons in Hcm as [->|Hcm]; [reflexivity|]).
      inversion Hcm. }
    rewrite Hm. split; reflexivity.
  - apply Forall_forall. intros cm Hcm. unfold burst in Hcm. cbn in Hcm.
    repeat (apply elem_of_cons in Hcm as [->|Hcm];
            [vm_compute; intros Hgt; discriminate Hgt|]).
    inversion Hcm.
  - split; [reflexivity|]. split; [exact Hv | exact Hw].
Defined.

(** C7, as stated, fails.  Eleven messages of one sender are submitted
    within ten seconds; each answer takes seven seconds, so that the tenth
    handler starts 63 seconds after the first: the window has expired, the
    counter is reset, and all eleven messages are taken up. *)
Lemma C7_counterexample :
  length (arrivalTimes slowService) = 11%nat
  /\ forallb (fun t => (0 <=? t) && (t <=? 10000)) (arrivalTimes slowService)
     = true
  /\ map snd (handled (run "Sara" slowService initial)) = replicate 11 Accepted
  /\ ~ (exists m, (m, Limited) ∈ handled (run "Sara" slowService initial)).
Proof.
  assert (Hh : map snd (handled (run "Sara" slowService initial))
               = replicate 11 Accepted)
    by (vm_compute; reflexivity).
  split; [vm_compute; reflexivity|]. split; [vm_compute; reflexivity|].
  split; [exact Hh|].
  revert Hh. generalize (handled (run "Sara" slowService initial)).
  intros l Hl (m & Hm).
  assert (Hin : Limited ∈ map snd l).
  { apply list_elem_of_In, in_map_iff. exists (m, Limited).
    split; [reflexivity | by apply list_elem_of_In]. }
  rewrite Hl in Hin. apply elem_of_replicate in Hin as [? _]. discriminate.
Qed.

End RateLimiterRuns.

(* --------------------------------------------------------------------- *)
(** ** Further properties of the dispatcher                               *)
(* --------------------------------------------------------------------- *)

Section DispatcherMore.
Import ChatbotService.

Variable personaName : string.

Lemma handled_app st js :
  omap (fun e => match e with
                 | Handling m v => Some (m, v)
                 | _ => None
                 end) (journal st ++ js)
  = handled st
    ++ omap (fun e => match e with
                      | Handling m v => Some (m, v)
                      | _ => None
                      end) js.
Proof. unfold handled. apply omap_app. Qed.

Lemma omap_sent {B} (f : Entry -> option B) s (ds : list Delivery) :
  (forall d, f (Sent s d) = None) -> omap f (map (Sent s) ds) = [].
Proof. intros Hf. induction ds as [|d ds IH]; simpl; [done|]. by rewrite Hf. Qed.

(** What one event does to the limiter and to the record of the handled
    messages: nothing, or one start of a handler. *)
Lemma step_handler st ev :
  (rateLimiter (step personaName st ev) = rateLimiter st
   /\ handled (step personaName st ev) = handled st)
  \/ (exists clock m,
        rateLimiter (step personaName st ev)
        = (startHandler personaName clock m (rateLimiter st)).2
        /\ handled (step personaName st ev)
           = handled st
             ++ [(m, (startHandler personaName clock m (rateLimiter st)).1)]).
Proof.
  assert (Hloop : forall clock s st0,
            rateLimiter st0 = rateLimiter st ->
            handled st0 = handled st ->
            (rateLimiter (loopHead personaName clock s st0) = rateLimiter st
             /\ handled (loopHead personaName clock s st0) = handled st)
            \/ (exists clock' m,
                  rateLimiter (loopHead personaName clock s st0)
                  = (startHandler personaName clock' m (rateLimiter st)).2
                  /\ handled (loopHead personaName clock s st0)
                     = handled st
                       ++ [(m, (startHandler personaName clock' m (rateLimiter st)).1)])).
  { intros clock s st0 Hrl Hh.
    destruct (messageQueue st0 !! s) as [[|m rest]|] eqn:Eq.
    - left. rewrite loopHead_idle by (unfold pending; by rewrite Eq).
      unfold finish, handled. cbn [rateLimiter journal].
      rewrite omap_app. simpl. rewrite app_nil_r. done.
    - right. exists clock, m. rewrite (loopHead_next _ _ _ _ _ _ Eq).
      cbn [rateLimiter]. rewrite Hrl. split; [reflexivity|].
      unfold handled at 1. cbn [journal]. rewrite handled_app, Hh. reflexivity.
    - left. rewrite loopHead_idle by (unfold pending; by rewrite Eq).
      unfold finish, handled. cbn [rateLimiter journal].
      rewrite omap_app. simpl. rewrite app_nil_r. done. }
  destruct ev as [clock m|clock i o]; simpl.
  - unfold queueMessage. cbn [processingMessages].
    destruct (decide (sender m ∈ processingMessages st)); [by left|].
    unfold processQueue. apply Hloop; [reflexivity|].
    unfold handled. cbn [journal]. rewrite omap_app. simpl.
    by rewrite app_nil_r.
  - unfold resume. destruct (workers st !! i) as [w|]; [|by left].
    assert (Hsent : omap (fun e => match e with
                                   | Handling m v => Some (m, v)
                                   | _ => None
                                   end)
                      (journal st ++ map (Sent (w_sender w))
                                       (delivered (settlement (w_verdict w) o)))
                    = handled st).
    { rewrite handled_app, omap_sent by done. by rewrite app_nil_r. }
    destruct (rejects (settlement (w_verdict w) o)).
    + left. unfold finish, handled. cbn [rateLimiter journal].
      rewrite omap_app, Hsent. simpl. by rewrite app_nil_r.
    + apply Hloop; [reflexivity | exact Hsent].
Qed.

(** The windows after the start of a handler: the senders that had one
    keep it, the sender of a message taken up has one, and the counts stay
    between 1 and 10. *)
Lemma startHandler_windows clock m rl :
  (forall s, is_Some ((startHandler personaName clock m rl).2 !! s)
             <-> is_Some (rl !! s)
                 \/ ((startHandler personaName clock m rl).1 = Accepted
                     /\ s = sender m))
  /\ ((forall s w, rl !! s = Some w -> (1 <= count w <= 10)%nat) ->
      forall s w, (startHandler personaName clock m rl).2 !! s = Some w ->
                  (1 <= count w <= 10)%nat).
Proof.
  destruct (notAddressed personaName m) eqn:Hadd.
  { unfold startHandler. rewrite Hadd. cbn [fst snd]. split; [|done].
    intros s. split; [by left|]. intros [H|[H _]]; [done | discriminate]. }
  assert (Hm : ((startHandler personaName clock m rl).1 = Accepted
                /\ exists w, (startHandler personaName clock m rl).2 !! sender m
                             = Some w
                             /\ (1 <= count w <= 10)%nat)
               \/ ((startHandler personaName clock m rl).1 = Limited
                   /\ (startHandler personaName clock m rl).2 !! sender m
                      = rl !! sender m
                   /\ is_Some (rl !! sender m))).
  { destruct (rl !! sender m) as [w0|] eqn:Hw0.
    - destruct (Z_lt_le_dec (resetTime w0) (tCheck clock)) as [Hexp|Hopen].
      + left.
        destruct (startHandler_closed personaName clock m rl Hadd) as [Hv Hw];
          [right; eauto|].
        split; [exact Hv|]. eexists. split; [exact Hw|]. simpl. lia.
      + destruct (startHandler_open personaName clock m rl w0 Hadd Hw0 Hopen)
          as [Hroom Hfull].
        destruct (le_lt_dec 10 (count w0)) as [Hc|Hc].
        * right. destruct (Hfull Hc) as [Hv Hw]. rewrite Hw. eauto.
        * left. destruct (Hroom Hc) as [Hv Hw].
          split; [exact Hv|]. eexists. split; [exact Hw|]. simpl. lia.
    - left.
      destruct (startHandler_closed personaName clock m rl Hadd) as [Hv Hw];
        [by left|].
      split; [exact Hv|]. eexists. split; [exact Hw|]. simpl. lia. }
  split.
  - intros s. destruct (decide (sender m = s)) as [<-|Hne].
    + destruct Hm as [(Hv & w & Hw & _)|(Hv & Hw & Hsome)].
      * rewrite Hw. split; [intros _; by right | eauto].
      * rewrite Hw. split; [by left | intros _; exact Hsome].
    + rewrite (startHandler_isolated personaName clock m rl s Hne).
      split; [by left|]. intros [H|[_ ->]]; [exact H | done].
  - intros Hb s w. destruct (decide (sender m = s)) as [<-|Hne].
    + destruct Hm as [(_ & w' & Hw & Hc)|(_ & Hw & _)]; rewrite Hw.
      * by intros [= <-].
      * apply Hb.
    + rewrite (startHandler_isolated personaName clock m rl s Hne). apply Hb.
Qed.

(** X1.  In every state the service reaches, each rate window holds a
    count between 1 and 10: the limiter never lets an eleventh message of a
    window through, and it keeps no window without a message. *)
Theorem rate_windows_bounded (evs : list Event) (s : string) (w : RateWindow) :
  rateLimiter (run personaName evs initial) !! s = Some w ->
  (1 <= count w <= 10)%nat.
Proof.
  revert s w. induction evs as [|ev evs IH] using rev_ind; intros s w.
  - simpl. by rewrite lookup_empty.
  - rewrite run_snoc.
    destruct (step_handler (run personaName evs initial) ev)
      as [[-> _]|(clock & m & -> & _)]; [apply IH|].
    by apply startHandler_windows.
Qed.

(** X2.  The counter that [getStatus] reports as [rateLimitedUsers] is the
    number of windows, and a sender has a window exactly when one of its
    messages was ever taken up: it counts the senders served so far, not
    the senders being limited. *)
Theorem rate_windows_are_served_senders (evs : list Event) :
  let st := run personaName evs initial in
  status_rateLimitedUsers (getStatus st) = size (dom (rateLimiter st))
  /\ forall s, s ∈ dom (rateLimiter st)
               <-> exists m, (m, Accepted) ∈ handled st /\ sender m = s.
Proof.
  intros st. split; [unfold getStatus; simpl; by rewrite size_dom|].
  unfold st. clear st. induction evs as [|ev evs IH] using rev_ind; intros s.
  - simpl. rewrite dom_empty_L. split; [set_solver|].
    intros (m & Hm & _). inversion Hm.
  - rewrite run_snoc. rewrite elem_of_dom.
    destruct (step_handler (run personaName evs initial) ev)
      as [[-> ->]|(clock & m & -> & ->)].
    + rewrite <- elem_of_dom. apply IH.
    + destruct (startHandler_windows clock m
                  (rateLimiter (run personaName evs initial))) as [Hdom _].
      rewrite Hdom, <- elem_of_dom, IH. split.
      * intros [(m' & Hm' & Hs)|[Hv ->]].
        -- exists m'. split; [|done]. apply elem_of_app. by left.
        -- exists m. split; [|done]. apply elem_of_app. right.
           rewrite Hv. apply list_elem_of_singleton. reflexivity.
      * intros (m' & Hm' & Hs). apply elem_of_app in Hm' as [Hm'|Hm'].
        -- left. eauto.
        -- apply list_elem_of_singleton in Hm'. injection Hm' as -> Hv.
           right. split; [by rewrite <- Hv | done].
Qed.

(** X3.  In every state the service reaches, the [processingMessages]
    counter of [getStatus] is the number of running workers. *)
Theorem status_counts_workers (evs : list Event) :
  let st := run personaName evs initial in
  status_processingMessages (getStatus st) = length (workers st).
Proof.
  intros st. destruct (run_consistent personaName evs) as (Hnd & Hpm & _).
  fold st in Hnd, Hpm. unfold getStatus. cbn.
  assert (processingMessages st = list_to_set (senders st)) as ->.
  { apply set_eq. intros x. rewrite elem_of_list_to_set. apply Hpm. }
  rewrite size_list_to_set by exact Hnd. unfold senders. by rewrite length_fmap.
Qed.

Lemma handledIn_app s js js' :
  handledIn s (js ++ js') = handledIn s js ++ handledIn s js'.
Proof. apply omap_app. Qed.

Lemma handledIn_sent s s' (ds : list Delivery) :
  handledIn s (map (Sent s') ds) = [].
Proof. by apply omap_sent. Qed.

Lemma handledIn_handling s m v :
  handledIn s [Handling m v] = if bool_decide (sender m = s) then [m] else [].
Proof. unfold handledIn. simpl. case_decide; case_bool_decide; done. Qed.

Lemma arrivalsOf_snoc s evs ev :
  arrivalsOf s (evs ++ [ev])
  = arrivalsOf s evs
    ++ match ev with
       | Arrive _ m => if bool_decide (sender m = s) then [m] else []
       | Settle _ _ _ => []
       end.
Proof.
  unfold arrivalsOf. rewrite omap_app. f_equal. destruct ev; simpl; [|done].
  case_decide; case_bool_decide; done.
Qed.

(** The order of handling.  The queue of a sender is the tail of its
    submissions, and the messages handled so far are among the ones before
    it, in their order; they are all of them when no handler rejected. *)
Lemma handling_order (evs : list Event) (s : string) :
  exists pre,
    arrivalsOf s evs = pre ++ pending s (run personaName evs initial)
    /\ handledOf s (run personaName evs initial) `sublist_of` pre
    /\ (Forall resolves evs -> handledOf s (run personaName evs initial) = pre).
Proof.
  unfold handledOf, pending.
  induction evs as [|ev evs IH] using rev_ind.
  { exists []. simpl. split; [reflexivity|]. split; [constructor | reflexivity]. }
  destruct IH as (pre & Harr & Hsub & Heq).
  rewrite run_snoc, arrivalsOf_snoc, Harr.
  pose proof (run_consistent personaName evs) as Hc.
  pose proof (run_keyed personaName evs) as Hk.
  set (st := run personaName evs initial) in *.
  assert (Hall : forall ev', Forall resolves (evs ++ [ev']) ->
                              handledIn s (journal st) = pre /\ resolves ev').
  { intros ev' Hf. apply Forall_app in Hf as [Hf Hev].
    split; [by apply Heq | by apply Forall_cons in Hev as [Hev _]]. }
  (* the [finally] block of the worker of [s'] *)
  assert (Hfin : forall s' aborted st1,
            messageQueue st1 = messageQueue st ->
            handledIn s (journal st1) = handledIn s (journal st) ->
            (s' = s -> aborted = false ->
             default [] (messageQueue st !! s) = []) ->
            exists pre',
              pre ++ default [] (messageQueue st !! s)
              = pre' ++ default [] (messageQueue (finish s' aborted st1) !! s)
              /\ handledIn s (journal (finish s' aborted st1)) `sublist_of` pre'
              /\ (handledIn s (journal st) = pre -> aborted = false ->
                  handledIn s (journal (finish s' aborted st1)) = pre')).
  { intros s' aborted st1 Hq Hh Hempty. unfold finish. cbn [messageQueue journal].
    rewrite handledIn_app, Hh. simpl. rewrite app_nil_r.
    destruct (decide (s' = s)) as [->|Hne].
    - rewrite lookup_delete_eq. simpl.
      exists (pre ++ default [] (messageQueue st !! s)).
      rewrite app_nil_r. split; [reflexivity|].
      split; [by apply sublist_inserts_r|].
      intros -> ->. rewrite Hempty by done. by rewrite app_nil_r.
    - rewrite lookup_delete_ne, Hq by done. exists pre. done. }
  (* the head of the loop of the worker of [s'] *)
  assert (Hloop : forall clock s' st1,
            messageQueue st1 = messageQueue st ->
            handledIn s (journal st1) = handledIn s (journal st) ->
            exists pre',
              pre ++ default [] (messageQueue st !! s)
              = pre' ++ default []
                          (messageQueue (loopHead personaName clock s' st1) !! s)
              /\ handledIn s (journal (loopHead personaName clock s' st1))
                 `sublist_of` pre'
              /\ (handledIn s (journal st) = pre ->
                  handledIn s (journal (loopHead personaName clock s' st1)) = pre')).
  { intros clock s' st1 Hq Hh.
    assert (Hidle : pending s' st1 = [] ->
              exists pre',
                pre ++ default [] (messageQueue st !! s)
                = pre' ++ default []
                            (messageQueue (loopHead personaName clock s' st1) !! s)
                /\ handledIn s (journal (loopHead personaName clock s' st1))
                   `sublist_of` pre'
                /\ (handledIn s (journal st) = pre ->
                    handledIn s (journal (loopHead personaName clock s' st1))
                    = pre')).
    { intros Hp. rewrite loopHead_idle by exact Hp.
      destruct (Hfin s' false st1 Hq Hh) as (pre' & H1 & H2 & H3).
      - intros -> _. unfold pending in Hp. by rewrite <- Hq.
      - exists pre'. split; [exact H1|]. split; [exact H2|].
        intros Hpre. by apply H3. }
    destruct (messageQueue st1 !! s') as [[|m rest]|] eqn:Eq;
      try (apply Hidle; unfold pending; by rewrite Eq).
    rewrite (loopHead_next _ _ _ _ _ _ Eq). cbn [messageQueue journal].
    assert (Hm : sender m = s').
    { rewrite Hq in Eq. specialize (Hk _ _ Eq).
      by apply Forall_cons in Hk as [Hm _]. }
    rewrite handledIn_app, Hh, handledIn_handling.
    destruct (decide (sender m = s)) as [Hs|Hs].
    - rewrite bool_decide_true by done.
      assert (s' = s) as -> by congruence.
      rewrite lookup_insert_eq. simpl. rewrite <- Hq, Eq. simpl.
      exists (pre ++ [m]). rewrite <- app_assoc. split; [reflexivity|].
      split; [by apply sublist_app | by intros ->].
    - rewrite bool_decide_false by done.
      rewrite lookup_insert_ne by congruence. rewrite app_nil_r, Hq.
      exists pre. done. }
  destruct ev as [clock m|clock i o]; cbn [step].
  - (* a message arrives *)
    destruct (decide (sender m ∈ processingMessages st)) as [Hact|Hidle].
    + rewrite queueMessage_active by done. cbn [messageQueue journal].
      unfold pending.
      destruct (decide (sender m = s)) as [Hs|Hs].
      * rewrite bool_decide_true by done.
        rewrite Hs, lookup_insert_eq. simpl. exists pre.
        rewrite <- app_assoc. split; [reflexivity|]. split; [exact Hsub|].
        intros Hf. by apply (Hall _ Hf).
      * rewrite bool_decide_false by done.
        rewrite lookup_insert_ne by done. rewrite app_nil_r. exists pre.
        split; [reflexivity|]. split; [exact Hsub|].
        intros Hf. by apply (Hall _ Hf).
    + assert (Hq : messageQueue st !! sender m = None).
      { destruct (messageQueue st !! sender m) eqn:E; [|done].
        destruct Hc as (_ & _ & Hq). exfalso. apply Hidle, Hq. rewrite E. eauto. }
      rewrite queueMessage_idle by done. cbn [messageQueue journal].
      change [WorkerStarted (sender m);
              Handling m (startHandler personaName clock m (rateLimiter st)).1]
        with ([WorkerStarted (sender m)]
              ++ [Handling m (startHandler personaName clock m (rateLimiter st)).1]).
      rewrite !handledIn_app, handledIn_handling.
      change (handledIn s [WorkerStarted (sender m)]) with (@nil MessageInfo).
      rewrite !app_nil_l.
      destruct (decide (sender m = s)) as [Hs|Hs].
      * rewrite !bool_decide_true by done.
        rewrite Hs, lookup_insert_eq. simpl.
        assert (default [] (messageQueue st !! s) = []) as ->
          by (by rewrite <- Hs, Hq).
        exists (pre ++ [m]). rewrite !app_nil_r. split; [reflexivity|].
        split; [by apply sublist_app|].
        intros Hf. destruct (Hall _ Hf) as [-> _]. reflexivity.
      * rewrite !bool_decide_false by done.
        rewrite lookup_insert_ne by done. rewrite !app_nil_r. exists pre.
        split; [reflexivity|]. split; [exact Hsub|].
        intros Hf. by apply (Hall _ Hf).
  - (* a handler settles *)
    rewrite app_nil_r. unfold resume.
    destruct (workers st !! i) as [w|] eqn:Hw.
    2:{ exists pre. split; [reflexivity|]. split; [exact Hsub|].
        intros Hf. by apply (Hall _ Hf). }
    set (st1 := {| messageQueue := messageQueue st;
                   processingMessages := processingMessages st;
                   rateLimiter := rateLimiter st;
                   workers := delete i (workers st);
                   journal := journal st
                              ++ map (Sent (w_sender w))
                                   (delivered (settlement (w_verdict w) o)) |}).
    assert (Hh1 : handledIn s (journal st1) = handledIn s (journal st)).
    { cbn [journal st1]. rewrite handledIn_app, handledIn_sent.
      by rewrite app_nil_r. }
    destruct (rejects (settlement (w_verdict w) o)) eqn:Hrej.
    + destruct (Hfin (w_sender w) true st1 eq_refl Hh1)
        as (pre' & H1 & H2 & _); [discriminate|].
      exists pre'. split; [exact H1|]. split; [exact H2|].
      intros Hf. destruct (Hall _ Hf) as [_ Hres]. exfalso.
      unfold settlement in Hrej. simpl in Hres.
      destruct (w_verdict w), o as [r|[|]]; simpl in Hrej; try discriminate.
      exact Hres.
    + destruct (Hloop clock (w_sender w) st1 eq_refl Hh1)
        as (pre' & Hp & Hs' & He').
      exists pre'. split; [exact Hp|]. split; [exact Hs'|].
      intros Hf. apply He'. by apply (Hall _ Hf).
Qed.

(** X4.  Within one sender, messages are handled in the order of their
    submission and each at most once, whatever the handlers do: the
    messages a handler was started on are a subsequence of the submitted
    ones, and those still queued are the last submitted ones. *)
Theorem handled_in_submission_order (evs : list Event) (s : string) :
  let st := run personaName evs initial in
  handledOf s st `sublist_of` arrivalsOf s evs
  /\ pending s st `suffix_of` arrivalsOf s evs.
Proof.
  intros st. destruct (handling_order evs s) as (pre & Harr & Hsub & _).
  fold st in Harr, Hsub. rewrite Harr. split.
  - by apply sublist_inserts_r.
  - by exists pre.
Qed.

(** X5.  As long as no handler rejects, no message is lost: the messages
    of a sender handled so far, followed by those still queued, are exactly
    the messages it submitted, in order. *)
Theorem nothing_lost_without_rejection (evs : list Event) (s : string) :
  Forall resolves evs ->
  let st := run personaName evs initial in
  arrivalsOf s evs = handledOf s st ++ pending s st.
Proof.
  intros Hres st. destruct (handling_order evs s) as (pre & Harr & _ & Heq).
  fold st in Harr, Heq. by rewrite Harr, Heq.
Qed.



(** X7.  [cleanup()] does not stop the workers that are running.  A worker
    that resumes after it finds no queue and ends without starting another
    handler, so that the messages queued at the time of the cleanup are
    never handled; and a message submitted for its sender before it has
    resumed starts a second worker for that sender. *)
Theorem cleanup_forgets_running_workers (evs : list Event) i w clock o m :
  let st := run personaName evs initial in
  workers st !! i = Some w ->
  sender m = w_sender w ->
  (forall s, pending s (cleanup st) = [])
  /\ handled (resume personaName clock i o (cleanup st)) = handled st
  /\ length (activeWorkers (w_sender w)
               (queueMessage personaName clock m (cleanup st))) = 2%nat.
Proof.
  intros st Hw Hm. split; [|split].
  - intros s. unfold pending, cleanup. cbn. by rewrite lookup_empty.
  - unfold resume. cbn [workers cleanup]. rewrite Hw.
    destruct (rejects (settlement (w_verdict w) o)).
    + unfold finish, handled. cbn [journal].
      rewrite !omap_app, omap_sent by done. simpl. by rewrite !app_nil_r.
    + rewrite loopHead_idle by (unfold pending; cbn; by rewrite lookup_empty).
      unfold finish, handled. cbn [journal].
      rewrite !omap_app, omap_sent by done. simpl. by rewrite !app_nil_r.
  - rewrite queueMessage_idle;
      [| cbn; apply not_elem_of_empty | cbn; apply lookup_empty].
    unfold activeWorkers. cbn [workers cleanup].
    rewrite filter_app, filter_cons_True by (simpl; exact Hm).
    rewrite filter_nil, length_app. simpl.
    pose proof (run_consistent personaName evs) as Hc. fold st in Hc.
    destruct (activeWorkers_marker st (w_sender w) Hc)
      as (_ & Hin & _).
    unfold activeWorkers in Hin. rewrite (proj1 Hin); [reflexivity|].
    destruct Hc as (_ & Hpm & _). apply Hpm. unfold senders.
    apply list_elem_of_fmap. exists w. split; [done|].
    apply list_elem_of_lookup. eauto.
Qed.

End DispatcherMore.

Section DispatcherMoreRuns.
Import ChatbotService.

Lemma rate_windows_bounded_witness :
  exists w, rateLimiter (run "Sara" slowService initial) !! "alice" = Some w
            /\ (1 <= count w <= 10)%nat.
Proof.
  exists {| count := 2; resetTime := 123000 |}.
  assert (Hw : rateLimiter (run "Sara" slowService initial) !! "alice"
               = Some {| count := 2; resetTime := 123000 |})
    by (vm_compute; reflexivity).
  split; [exact Hw|].
  exact (rate_windows_bounded "Sara" slowService "alice" _ Hw).
Defined.

Lemma nothing_lost_without_rejection_witness :
  Forall resolves (failingFirst true)
  /\ arrivalsOf "alice" (failingFirst true)
     = handledOf "alice" (run "Sara" (failingFirst true) initial)
       ++ pending "alice" (run "Sara" (failingFirst true) initial).
Proof.
  assert (Hres : Forall resolves (failingFirst true))
    by (repeat constructor).
  split; [exact Hres|].
  exact (nothing_lost_without_rejection "Sara" (failingFirst true) "alice" Hres).
Defined.


Lemma cleanup_forgets_running_workers_witness :
  let st := run "Sara" [Arrive (at_ 0) (fromAlice "m1")] initial in
  workers st !! 0%nat
  = Some {| w_sender := "alice"; w_message := fromAlice "m1";
            w_verdict := Accepted |}
  /\ length (activeWorkers "alice"
               (queueMessage "Sara" (at_ 10) (fromAlice "m2") (cleanup st)))
     = 2%nat.
Proof.
  intros st. split; [reflexivity|].
  destruct (cleanup_forgets_running_workers "Sara"
              [Arrive (at_ 0) (fromAlice "m1")] 0%nat
              {| w_sender := "alice"; w_message := fromAlice "m1";
                 w_verdict := Accepted |}
              (at_ 10) (Replied "r") (fromAlice "m2") eq_refl eq_refl)
    as (_ & _ & Htwo).
  exact Htwo.
Defined.

End DispatcherMoreRuns.

(* --------------------------------------------------------------------- *)
(** ** Further properties of the backend client                           *)
(* --------------------------------------------------------------------- *)

Section BackendClientMore.
Import GeminiClient.

Lemma getBestClient_registered now st c :
  getBestClient now st = Some c -> c ∈ clients st.
Proof.
  unfold getBestClient. intros Hbest.
  destruct (bestLoop_cases now st (clients st) (head (clients st)) (-1)%Q)
    as [[_ Hhead]|(i & c' & Hc' & _ & Hi & _)].
  - rewrite Hhead in Hbest. destruct (clients st); [discriminate|].
    injection Hbest as <-. left.
  - rewrite Hc' in Hbest. injection Hbest as <-.
    apply list_elem_of_lookup. eauto.
Qed.

Lemma total_insert (m : gmap nat nat) i :
  total (<[i := (countOf m i + 1)%nat]> m) = (total m + 1)%nat.
Proof.
  unfold total, countOf.
  assert (Hcomm : forall (m' : gmap nat nat) x, m' !! i = None ->
            map_fold (fun _ v acc => (v + acc)%nat) 0%nat (<[i := x]> m')
            = (x + map_fold (fun _ v acc => (v + acc)%nat) 0%nat m')%nat).
  { intros m' x Hnone.
    apply (map_fold_insert_L (fun _ v acc => (v + acc)%nat)); [|exact Hnone].
    intros. lia. }
  destruct (m !! i) as [v|] eqn:Hv; simpl.
  - rewrite <- (insert_delete_id m i v Hv) at 2.
    rewrite <- (insert_delete_eq m), !Hcomm by apply lookup_delete_eq. lia.
  - rewrite Hcomm by done. lia.
Qed.

Section Loop.
Variable cfg : Config.
Variable retries : Z.
Variable env : Z -> AttemptEnv.

(** Who issues and who is charged, and what the counters add up to, along
    the retry loop. *)
Lemma retryLoop_accounts range : forall st lastError,
  let r := retryLoop cfg retries env range st lastError in
  clients (final r) = clients st
  /\ Forall (fun e => client e ∈ clients st
                      /\ forall c, charged e = Some c -> c ∈ clients st) (log r)
  /\ total (requestCounts (final r))
     = (total (requestCounts st) + length (log r))%nat
  /\ total (errorCounts (final r))
     = (total (errorCounts st) + length (List.filter failed (log r)))%nat.
Proof.
  induction range as [|a rest IH]; intros st lastError; cbn zeta.
  { simpl. split; [reflexivity|]. split; [constructor|]. split; lia. }
  cbn [retryLoop]. unfold beginAttempt.
  destruct (getBestClient (t_select (env a)) st) as [c|] eqn:Hc.
  2:{ simpl. split; [reflexivity|]. split; [constructor|]. split; lia. }
  pose proof (getBestClient_registered _ _ _ Hc) as Hin.
  destruct (validate (outcome (env a))) as [text|message].
  - cbn. rewrite total_insert. split; [reflexivity|]. split; [|split; lia].
    constructor; [|constructor]. simpl. split; [exact Hin | discriminate].
  - unfold failAttempt.
    destruct (getBestClient (t_settle (env a)) (updateRequestCount c st))
      as [c'|] eqn:Hc'.
    2:{ apply getBestClient_None in Hc'. simpl in Hc'. rewrite Hc' in Hin.
        inversion Hin. }
    pose proof (getBestClient_registered _ _ _ Hc') as Hin'. simpl in Hin'.
    assert (Hentry : forall sl,
              client {| attempt := a; client := c; failure := Some message;
                        charged := Some c'; slept := sl |} ∈ clients st
              /\ forall c0, charged {| attempt := a; client := c;
                                       failure := Some message;
                                       charged := Some c'; slept := sl |}
                            = Some c0 -> c0 ∈ clients st).
    { intros sl. simpl. split; [exact Hin|]. by intros c0 [= <-]. }
    destruct (negb (isRetryableError message) && (a =? retries)).
    + cbn. rewrite !total_insert. split; [reflexivity|].
      split; [constructor; [apply Hentry | constructor]|]. split; lia.
    + specialize (IH (updateErrorCount c' (updateRequestCount c st))
                     (Some message)).
      cbn zeta in IH. destruct IH as (IH1 & IH2 & IH3 & IH4).
      cbn [logged final log]. rewrite IH1, IH3, IH4. cbn.
      rewrite !total_insert. split; [reflexivity|].
      split; [constructor; [apply Hentry | exact IH2]|]. split; lia.
Qed.

End Loop.

(** X8.  [generateContent] only ever issues requests on registered
    credential slots and only ever charges errors to registered slots; the
    pool itself is left as it is. *)
Theorem only_registered_slots cfg env maxRetriesArg st e :
  let r := generateContent cfg env maxRetriesArg st in
  e ∈ log r ->
  clients (final r) = clients st
  /\ client e ∈ clients st
  /\ forall c, charged e = Some c -> c ∈ clients st.
Proof.
  intros r He. unfold r, generateContent in *.
  destruct (retryLoop_accounts cfg (retryBudget cfg maxRetriesArg) env
              (attemptNumbers (retryBudget cfg maxRetriesArg)) st None)
    as (Hcl & Hall & _).
  split; [exact Hcl|]. rewrite Forall_forall in Hall. by apply Hall.
Qed.

Lemma only_registered_slots_witness :
  let r := generateContent defaultConfig timeoutThenOk None twoSlots in
  let e := {| attempt := 0; client := 0%nat;
              failure := Some "Request timeout"; charged := Some 0%nat;
              slept := Some 1000 |} in
  e ∈ log r
  /\ clients (final r) = [0%nat; 1%nat]
  /\ client e ∈ clients twoSlots.
Proof.
  intros r e.
  assert (He : e ∈ log r) by (vm_compute; left).
  destruct (only_registered_slots defaultConfig timeoutThenOk None twoSlots e He)
    as (Hcl & Hc & _).
  split; [exact He|]. split; [exact Hcl | exact Hc].
Defined.

(** X9.  The counters add up: over one call of [generateContent] the
    request counts of all slots together grow by the number of attempts and
    the error counts by the number of failed attempts, whichever slot each
    error is charged to; so a pool with no more errors than requests in all
    stays so. *)
Theorem counters_add_up cfg env maxRetriesArg st :
  let r := generateContent cfg env maxRetriesArg st in
  total (requestCounts (final r))
  = (total (requestCounts st) + length (log r))%nat
  /\ total (errorCounts (final r))
     = (total (errorCounts st) + length (List.filter failed (log r)))%nat
  /\ ((total (errorCounts st) <= total (requestCounts st))%nat ->
      (total (errorCounts (final r)) <= total (requestCounts (final r)))%nat).
Proof.
  intros r. unfold r, generateContent.
  destruct (retryLoop_accounts cfg (retryBudget cfg maxRetriesArg) env
              (attemptNumbers (retryBudget cfg maxRetriesArg)) st None)
    as (_ & _ & Hreq & Herr).
  split; [exact Hreq|]. split; [exact Herr|].
  intros Hle. rewrite Hreq, Herr.
  pose proof (List.filter_length_le failed
                (log (retryLoop cfg (retryBudget cfg maxRetriesArg) env
                        (attemptNumbers (retryBudget cfg maxRetriesArg)) st None))).
  lia.
Qed.

Lemma counters_add_up_witness :
  let r := generateContent defaultConfig timeoutThenOk None driftingPool in
  (total (errorCounts driftingPool) <= total (requestCounts driftingPool))%nat
  /\ total (requestCounts (final r)) = 5%nat
  /\ total (errorCounts (final r)) = 2%nat
  /\ (total (errorCounts (final r)) <= total (requestCounts (final r)))%nat.
Proof.
  intros r.
  assert (Hle : (total (errorCounts driftingPool)
                 <= total (requestCounts driftingPool))%nat)
    by (vm_compute; lia).
  destruct (counters_add_up defaultConfig timeoutThenOk None driftingPool)
    as (Hreq & Herr & Hkeep).
  split; [exact Hle|]. split; [exact Hreq|]. split; [exact Herr|].
  exact (Hkeep Hle).
Defined.

Lemma bestLoop_level now st cs b bs :
  (forall c, c ∈ cs -> (score now st c <= bs)%Q) ->
  bestLoop now st cs b bs = b.
Proof.
  revert b bs. induction cs as [|c cs IH]; intros b bs Hall; simpl; [done|].
  assert (Qgtb (score now st c) bs = false) as ->.
  { apply Qgtb_false, Hall. left. }
  apply IH. intros c' Hc'. apply Hall. by right.
Qed.

(** A pool all of whose slots have the same score above -1: the first
    registered slot is the best. *)
Lemma getBestClient_level now st (v : Q) :
  (-1 < v)%Q ->
  (forall c, c ∈ clients st -> score now st c = v) ->
  getBestClient now st = head (clients st).
Proof.
  intros Hv Hall. unfold getBestClient.
  destruct (clients st) as [|c cs] eqn:Hcs; [reflexivity|]. simpl.
  rewrite (Hall c) by left.
  assert (Qgtb v (-1) = true) as -> by (by apply Qgtb_true).
  apply bestLoop_level. intros c' Hc'. rewrite (Hall c') by (by right).
  apply Qle_refl.
Qed.

Lemma idle_score_above (now : Z) :
  0 <= now -> (-1 < scoreOf 0 (now - 0))%Q.
Proof.
  intros Hnow. unfold scoreOf.
  assert (0 <= Qmin (inject_Z (now - 0) / 1000) 60)%Q.
  { apply Q.min_glb; [|lra]. apply Qle_shift_div_l; [lra|].
    rewrite Qmult_0_l, <- (Zle_Qle 0). lia. }
  lra.
Qed.

Lemma zeroed_lookup {V} (v x : V) n i : zeroed v n !! i = Some x -> x = v.
Proof.
  unfold zeroed. intros H. apply elem_of_list_to_map_2 in H.
  apply list_elem_of_In, in_map_iff in H as (j & [= _ <-] & _). reflexivity.
Qed.

(** X10.  A pool is created with one slot per API key, numbered from 0 in
    the order of the keys, and none without a key; on a fresh pool the slot
    of the first key is chosen. *)
Theorem fresh_pool_first_key (apiKeys : list string) :
  (initializeClients apiKeys = None <-> apiKeys = [])
  /\ forall st now,
       initializeClients apiKeys = Some st -> 0 <= now ->
       clients st = seq 0 (length apiKeys)
       /\ getBestClient now st = Some 0%nat.
Proof.
  split.
  - destruct apiKeys; simpl; split; intros; congruence.
  - intros st now Hinit Hnow. destruct apiKeys as [|k ks]; [discriminate|].
    injection Hinit as <-. split; [reflexivity|].
    rewrite (getBestClient_level now _ (scoreOf 0 (now - 0)));
      [reflexivity | by apply idle_score_above |].
    intros c _. unfold score, countOf, timeOf. cbn [requestCounts errorCounts lastRequestTimes].
    assert (Hn : forall n, default 0%nat (zeroed 0%nat n !! c) = 0%nat).
    { intros n. destruct (zeroed 0%nat n !! c) eqn:E; [|reflexivity].
      apply zeroed_lookup in E. by subst. }
    assert (Ht : forall n, default 0 (zeroed 0 n !! c) = 0).
    { intros n. destruct (zeroed 0 n !! c) eqn:E; [|reflexivity].
      apply zeroed_lookup in E. by subst. }
    rewrite !Hn, Ht. reflexivity.
Qed.

Lemma fresh_pool_first_key_witness :
  exists st, initializeClients ["key-a"; "key-b"] = Some st
             /\ 0 <= epoch
             /\ getBestClient epoch st = Some 0%nat.
Proof.
  eexists. split; [reflexivity|]. split; [discriminate|].
  destruct (fresh_pool_first_key ["key-a"; "key-b"]) as [_ H].
  destruct (H _ epoch eq_refl) as [_ Hbest]; [discriminate|]. exact Hbest.
Defined.

Lemma reset_lookup {V} (v : V) (m : gmap nat V) cs c :
  c ∈ cs -> foldr (fun c m => <[c := v]> m) m cs !! c = Some v.
Proof.
  induction cs as [|c' cs IH]; intros Hc; [inversion Hc|]. simpl.
  destruct (decide (c' = c)) as [->|Hne].
  - apply lookup_insert_eq.
  - rewrite lookup_insert_ne by done. apply IH.
    apply elem_of_cons in Hc as [?|?]; [congruence | done].
Qed.

(** X11.  After [resetStats()] every registered slot has no request, no
    error and no last request time, and the first registered slot is the
    one chosen next. *)
Theorem reset_pool_first_slot (st : State) (now : Z) :
  0 <= now ->
  (forall c, c ∈ clients st ->
     requestCounts (resetStats st) !! c = Some 0%nat
     /\ errorCounts (resetStats st) !! c = Some 0%nat
     /\ lastRequestTimes (resetStats st) !! c = Some 0)
  /\ getBestClient now (resetStats st) = head (clients st).
Proof.
  intros Hnow.
  assert (Hz : forall c, c ∈ clients st ->
            requestCounts (resetStats st) !! c = Some 0%nat
            /\ errorCounts (resetStats st) !! c = Some 0%nat
            /\ lastRequestTimes (resetStats st) !! c = Some 0).
  { intros c Hc. unfold resetStats. cbn. by rewrite !reset_lookup. }
  split; [exact Hz|].
  rewrite (getBestClient_level now _ (scoreOf 0 (now - 0)));
    [reflexivity | by apply idle_score_above |].
  intros c Hc. destruct (Hz c Hc) as (Hr & He & Ht).
  unfold score, countOf, timeOf. by rewrite Hr, He, Ht.
Qed.

Lemma reset_pool_first_slot_witness :
  0 <= epoch /\ getBestClient epoch (resetStats driftingPool) = Some 0%nat.
Proof.
  split; [discriminate|].
  destruct (reset_pool_first_slot driftingPool epoch) as [_ H]; [discriminate|].
  exact H.
Defined.



Section Exhaustion.
Variable cfg : Config.
Variable retries : Z.
Variable env : Z -> AttemptEnv.

Lemma retryLoop_exhausted n : forall a st lastError,
  clients st <> [] -> 0 <= a -> a + Z.of_nat n = retries + 1 ->
  (forall j, a <= j <= retries -> failureOf (outcome (env j)) <> None) ->
  let r := retryLoop cfg retries env (upto a n) st lastError in
  length (log r) = n
  /\ result r
     = Rejected ("Gemini request failed: "
                 ++ default "Unknown error"
                      (match n with
                       | O => lastError
                       | S _ => failureOf (outcome (env retries))
                       end))
  /\ totalSleep r
     = match n with
       | O => 0
       | S _ => retryDelay cfg * (2 ^ retries - 2 ^ a)
       end.
Proof.
  induction n as [|n IH]; intros a st lastError Hcs Ha Han Hfail; cbn zeta.
  { simpl. done. }
  rewrite upto_S. cbn [retryLoop].
  destruct (beginAttempt_is_Some (t_select (env a)) st Hcs) as [[c st1] Hb].
  rewrite Hb. pose proof (beginAttempt_clients _ _ _ _ Hb) as Hcs1.
  assert (Hfa : failureOf (outcome (env a)) <> None) by (apply Hfail; lia).
  unfold failureOf in Hfa.
  destruct (validate (outcome (env a))) as [text|message] eqn:Hv; [done|].
  assert (Hcs1' : clients st1 <> []) by congruence.
  destruct (failAttempt_is_Some (t_settle (env a)) st1 Hcs1') as [[c' st2] Hf].
  rewrite Hf. pose proof (failAttempt_clients _ _ _ _ Hf) as Hcs2.
  assert (Hcs2' : clients st2 <> []) by congruence.
  assert (Hlastmsg : a = retries ->
            failureOf (outcome (env retries)) = Some message).
  { intros <-. unfold failureOf. by rewrite Hv. }
  destruct (negb (isRetryableError message) && (a =? retries)) eqn:Hbrk.
  - apply andb_true_iff in Hbrk as [_ Hlast]. apply Z.eqb_eq in Hlast.
    assert (n = 0%nat) as -> by lia.
    unfold totalSleep. cbn. rewrite (Hlastmsg Hlast). subst a.
    split; [reflexivity|]. split; [reflexivity|]. lia.
  - specialize (IH (a + 1) st2 (Some message) Hcs2' ltac:(lia) ltac:(lia)).
    cbn zeta in IH. destruct IH as (IH1 & IH2 & IH3).
    { intros j Hj. apply Hfail. lia. }
    unfold totalSleep in *. cbn [logged log result foldr slept length].
    rewrite IH1, IH2, IH3. split; [reflexivity|].
    destruct n as [|n'].
    + assert (a = retries) by lia. rewrite (Hlastmsg H).
      split; [reflexivity|]. subst a. rewrite Z.ltb_irrefl. simpl. lia.
    + split; [reflexivity|].
      destruct (Z.ltb_spec a retries) as [_|?]; [|lia]. simpl.
      unfold backoff. rewrite Z.pow_add_r by lia. lia.
Qed.

End Exhaustion.



(** X14.  A retry budget of zero cannot be asked for: called with
    [maxRetries = 0], [generateContent] takes the configured budget, as when
    the argument is left out; against a backend that keeps failing it
    issues [config.gemini.maxRetries + 1] attempts, not one. *)
Theorem zero_budget_is_default cfg env st :
  generateContent cfg env (Some 0) st = generateContent cfg env None st
  /\ (clients st <> [] -> 0 <= maxRetries cfg ->
      (forall j, 0 <= j <= maxRetries cfg ->
                 failureOf (outcome (env j)) <> None) ->
      Z.of_nat (length (log (generateContent cfg env (Some 0) st)))
      = maxRetries cfg + 1).
Proof.
  split; [reflexivity|]. intros Hcs Hr Hfail.
  destruct (retryLoop_exhausted cfg (maxRetries cfg) env
              (Z.to_nat (maxRetries cfg + 1)) 0 st None Hcs)
    as (Hlen & _); [lia | lia | exact Hfail|].
  unfold generateContent. change (retryBudget cfg (Some 0)) with (maxRetries cfg).
  rewrite attemptNumbers_upto, Hlen. lia.
Qed.

Lemma zero_budget_is_default_witness :
  let env := fun _ : Z => {| t_select := epoch;
                             outcome := Threw "503 UNAVAILABLE";
                             t_settle := epoch |} in
  length (log (generateContent defaultConfig env (Some 0) twoSlots)) = 4%nat.
Proof.
  intros env.
  destruct (zero_budget_is_default defaultConfig env twoSlots) as [_ H].
  specialize (H ltac:(discriminate) ltac:(discriminate)
                (fun j _ => ltac:(discriminate))).
  simpl in H. lia.
Defined.

Lemma prefix_empty (h : string) : String.prefix "" h = true.
Proof. by destruct h. Qed.

Lemma prefix_app (n h q : string) :
  String.prefix n h = true -> String.prefix n (h ++ q) = true.
Proof.
  revert h. induction n as [|c n IH]; intros h.
  - intros _. apply prefix_empty.
  - destruct h as [|c' h]; simpl; [discriminate|].
    destruct (Ascii.ascii_dec c c'); [apply IH | done].
Qed.

Lemma includes_cons (c : ascii) (h n : string) :
  includes h n = true -> includes (String c h) n = true.
Proof.
  intros Hh. cbn [includes]. rewrite Hh.
  by destruct (String.prefix n (String c h)).
Qed.

Lemma includes_app (p h q n : string) :
  includes h n = true -> includes (p ++ h ++ q) n = true.
Proof.
  intros Hh.
  assert (Hq : includes (h ++ q) n = true).
  { revert Hh. induction h as [|c h IH].
    - cbn [includes]. destruct (String.prefix n "") eqn:E; [|discriminate].
      intros _. destruct n as [|c n]; [|discriminate E].
      destruct q; cbn [includes String.append]; rewrite ?prefix_empty; done.
    - cbn [includes]. destruct (String.prefix n (String c h)) eqn:E.
      + intros _. apply (prefix_app _ _ q) in E.
        change (String c h ++ q)%string with (String c (h ++ q)) in *.
        cbn [includes]. by rewrite E.
      + intros Hh. change (String c h ++ q)%string with (String c (h ++ q)).
        apply includes_cons. by apply IH. }
  induction p as [|c p IH]; [exact Hq|].
  change (String c p ++ h ++ q)%string with (String c (p ++ h ++ q)).
  by apply includes_cons.
Qed.

(** X15.  The class of an error survives wrapping: a message that contains
    a retryable message is retryable.  In particular the error with which
    an exhausted [generateContent] rejects is classified as retryable
    whenever the last failure was; the client's own timeout error is
    retryable and its own error for a blank answer is not. *)
Theorem retryable_survives_wrapping (before message after : string) :
  (isRetryableError message = true ->
   isRetryableError (before ++ message ++ after) = true)
  /\ (isRetryableError message = true ->
      isRetryableError ("Gemini request failed: " ++ message) = true)
  /\ isRetryableError "Request timeout" = true
  /\ isRetryableError "Empty response from Gemini" = false.
Proof.
  assert (Hwrap : forall b a, isRetryableError message = true ->
                              isRetryableError (b ++ message ++ a) = true).
  { intros b a. unfold isRetryableError. rewrite !existsb_exists.
    intros (pattern & Hin & Hinc). exists pattern. split; [exact Hin|].
    by apply includes_app. }
  split; [apply Hwrap|]. split; [|split; reflexivity].
  intros H. specialize (Hwrap "Gemini request failed: " "" H).
  assert (Hnil : forall s : string, (s ++ "")%string = s).
  { induction s as [|c s' IHs]; [reflexivity|].
    change (String c s' ++ "")%string with (String c (s' ++ "")).
    by rewrite IHs. }
  by rewrite Hnil in Hwrap.
Qed.

Lemma retryable_survives_wrapping_witness :
  isRetryableError "503 UNAVAILABLE" = true
  /\ isRetryableError "Gemini request failed: 503 UNAVAILABLE" = true.
Proof.
  split; [reflexivity|].
  destruct (retryable_survives_wrapping "" "503 UNAVAILABLE" "")
    as (_ & H & _).
  exact (H eq_refl).
Defined.

End BackendClientMore.

(* --------------------------------------------------------------------- *)
(** ** Further properties of the conversation store                       *)
(* --------------------------------------------------------------------- *)

Section ConversationStoreMore.
Import JsonDatabase.

Lemma sliceFrom_lastN {A} (k : nat) (l : list A) :
  (0 < k)%nat -> sliceFrom (- Z.of_nat k) l = lastN k l.
Proof.
  intros Hk. unfold sliceFrom, lastN.
  destruct (Z.ltb_spec (- Z.of_nat k) 0); [|lia]. f_equal. lia.
Qed.

Lemma lastN_length {A} (k : nat) (l : list A) :
  length (lastN k l) = Nat.min k (length l).
Proof. unfold lastN. rewrite length_drop. lia. Qed.

Lemma last_lastN {A} (k : nat) (l : list A) :
  (0 < k)%nat -> last (lastN k l) = last l.
Proof.
  intros Hk. destruct l as [|x l]; [reflexivity|].
  rewrite !last_lookup, lastN_length. unfold lastN.
  rewrite lookup_drop. f_equal. simpl. lia.
Qed.

Lemma last_map {A B} (f : A -> B) (l : list A) : last (map f l) = f <$> last l.
Proof.
  induction l as [|x [|y l] IH]; [reflexivity | reflexivity|].
  change (last (map f (x :: y :: l))) with (last (map f (y :: l))).
  by rewrite IH.
Qed.

(** X16.  The context handed to the backend.  For a positive
    [maxChatHistory], [getConversationContext] returns the last
    [min(maxChatHistory, 50)] stored turns of the sender, converted and in
    their order, and nothing for a sender without conversation; right after
    [addMessage] the context ends with the turn just stored. *)
Theorem conversation_context (mx : Z) (s : string) (db : ChatHistory) :
  0 < mx ->
  (db !! s = None -> getConversationContext mx s db = [])
  /\ getConversationContext mx s db
     = map toContext (lastN (Z.to_nat (Z.min mx 50)) (storedMessages s db))
  /\ (length (getConversationContext mx s db) <= Z.to_nat (Z.min mx 50))%nat
  /\ forall now mid r c meta,
       last (getConversationContext mx s
               (addMessage mx now mid s r c meta db).1)
       = Some (toContext {| id := mid; role := r; content := c;
                            timestamp := now; metadata := meta |}).
Proof.
  intros Hmx.
  assert (Hctx : forall db' : ChatHistory,
            getConversationContext mx s db'
            = map toContext (lastN (Z.to_nat (Z.min mx 50))
                               (storedMessages s db'))).
  { intros db'. unfold getConversationContext, storedMessages.
    destruct (db' !! s) as [conv|]; [|reflexivity]. cbn zeta.
    replace (- Z.min mx 50) with (- Z.of_nat (Z.to_nat (Z.min mx 50))) by lia.
    rewrite sliceFrom_lastN by lia. unfold lastN.
    by rewrite length_map, skipn_map. }
  split; [|split; [|split]].
  - intros Hnone. unfold getConversationContext. by rewrite Hnone.
  - apply Hctx.
  - rewrite Hctx, length_map, lastN_length. lia.
  - intros now mid r c meta. rewrite Hctx, last_map, last_lastN by lia.
    rewrite storedMessages_addMessage, trimHistory_lastN by lia.
    rewrite last_lastN by lia. by rewrite last_snoc.
Qed.

Lemma conversation_context_witness :
  0 < 2
  /\ getConversationContext 2 "alice"
       (addMessages 2 "alice" (map sampleTurn [1; 2; 3]) ∅)
     = map toContext (map messageOf (map sampleTurn [2; 3])).
Proof.
  split; [lia|].
  destruct (conversation_context 2 "alice"
              (addMessages 2 "alice" (map sampleTurn [1; 2; 3]) ∅))
    as (_ & H & _); [lia|].
  rewrite H. reflexivity.
Defined.



(** What [addMessage] leaves under the sender. *)
Lemma addMessage_lookup (mx : Z) now mid (s : string) r c meta
    (db : ChatHistory) :
  0 <= mx ->
  exists conv,
    (addMessage mx now mid s r c meta db).1 !! s = Some conv
    /\ messages conv
       = lastN (Z.to_nat mx)
           (storedMessages s db
              ++ [{| id := mid; role := r; content := c; timestamp := now;
                     metadata := meta |}])
    /\ lastMessageTime (conv_metadata conv) = Some now
    /\ messageCount (conv_metadata conv)
       = Some (S (length (storedMessages s db))).
Proof.
  intros Hmx. unfold addMessage. simpl. rewrite lookup_insert_eq.
  eexists. split; [reflexivity|]. simpl.
  assert (Hst : messages (match db !! s with
                          | Some conv => conv
                          | None => freshConversation now
                          end) = storedMessages s db).
  { unfold storedMessages. by destruct (db !! s). }
  rewrite Hst, trimHistory_lastN by done.
  split; [reflexivity|]. split; [reflexivity|].
  rewrite length_app. simpl. f_equal; lia.
Qed.

(** X18.  The bookkeeping of [addMessage].  The stored turns are the
    previous ones and the new one, cut to the last [maxChatHistory];
    [lastMessageTime] is the time of the new turn; and [messageCount] is
    the length before the cut, so that on a full history it reads
    [maxChatHistory + 1] while [maxChatHistory] turns are stored. *)
Theorem addMessage_bookkeeping (mx : Z) now mid (s : string) r c meta
    (db : ChatHistory) :
  0 <= mx ->
  exists conv,
    (addMessage mx now mid s r c meta db).1 !! s = Some conv
    /\ messages conv
       = lastN (Z.to_nat mx)
           (storedMessages s db
              ++ [{| id := mid; role := r; content := c; timestamp := now;
                     metadata := meta |}])
    /\ lastMessageTime (conv_metadata conv) = Some now
    /\ messageCount (conv_metadata conv)
       = Some (S (length (storedMessages s db)))
    /\ (length (storedMessages s db) = Z.to_nat mx ->
        length (messages conv) = Z.to_nat mx
        /\ messageCount (conv_metadata conv) = Some (S (Z.to_nat mx))).
Proof.
  intros Hmx.
  destruct (addMessage_lookup mx now mid s r c meta db Hmx)
    as (conv & Hconv & Hmsgs & Hlast & Hcount).
  exists conv. split; [exact Hconv|]. split; [exact Hmsgs|].
  split; [exact Hlast|]. split; [exact Hcount|].
  intros Hfull. rewrite Hmsgs, Hcount, lastN_length, length_app, Hfull. simpl.
  split; [lia | reflexivity].
Qed.

Lemma addMessage_bookkeeping_witness :
  let db := addMessages 2 "alice" (map sampleTurn [1; 2]) ∅ in
  0 <= 2
  /\ length (storedMessages "alice" db) = 2%nat
  /\ exists conv,
       (addMessage 2 3 "id" "alice" user "hi" "" db).1 !! "alice" = Some conv
       /\ length (messages conv) = 2%nat
       /\ messageCount (conv_metadata conv) = Some 3%nat.
Proof.
  intros db. split; [lia|]. split; [reflexivity|].
  destruct (addMessage_bookkeeping 2 3 "id" "alice" user "hi" "" db)
    as (conv & Hconv & _ & _ & _ & Hfull); [lia|].
  exists conv. split; [exact Hconv|]. by apply Hfull.
Defined.



Lemma keepRecent_lastN (l : list (string * Z)) : keepRecent l = lastN 20 l.
Proof.
  unfold keepRecent. destruct (Nat.ltb_spec 20 (length l)).
  - change (-20) with (- Z.of_nat 20). apply sliceFrom_lastN. lia.
  - unfold lastN. by replace (length l - 20)%nat with 0%nat by lia.
Qed.

(** X20.  The emotional log is bounded: after [storeEmotionalContext] the
    log of the sender holds the last twenty entries of the previous log
    followed by the new one, in their order.  For a sender without
    conversation it creates one without turns and without times, and the
    retention cleanup never deletes such a conversation, however old. *)
Theorem emotional_log_bounded (now : Z) (s data : string)
    (db : gmap string Profiled) :
  let previous := default [] (db !! s ≫= emotionalProfile) in
  exists entry,
    storeEmotionalContext now s data db !! s = Some entry
    /\ emotionalProfile entry = Some (lastN 20 (previous ++ [(data, now)]))
    /\ (forall p, emotionalProfile entry = Some p ->
          (length p <= 20)%nat /\ last p = Some (data, now))
    /\ (forall s', s' <> s ->
          storeEmotionalContext now s data db !! s' = db !! s')
    /\ (db !! s = None ->
        conversation entry = bareConversation
        /\ forall cutoff,
             cleanupConversation cutoff (conversation entry)
             = Some (conversation entry)).
Proof.
  intros previous. unfold storeEmotionalContext. rewrite lookup_insert_eq.
  eexists. split; [reflexivity|]. simpl.
  assert (Hprev : default [] (emotionalProfile
                     (default {| conversation := bareConversation;
                                 emotionalProfile := None |} (db !! s)))
                  = previous).
  { unfold previous. by destruct (db !! s). }
  rewrite Hprev, keepRecent_lastN. split; [reflexivity|]. split; [|split].
  - intros p [= <-]. rewrite lastN_length, last_lastN by lia.
    split; [lia | apply last_snoc].
  - intros s' Hne. by rewrite lookup_insert_ne.
  - intros Hnone. rewrite Hnone. simpl. split; reflexivity.
Qed.

Lemma emotional_log_bounded_witness :
  let db := storeEmotionalContext 1 "alice" "sad" ∅ in
  db !! "alice"
  = Some {| conversation := bareConversation;
            emotionalProfile := Some [("sad", 1)] |}
  /\ cleanupConversation 1700000000000 bareConversation = Some bareConversation.
Proof.
  intros db.
  destruct (emotional_log_bounded 1 "alice" "sad" ∅)
    as (entry & Hentry & Hlog & _ & _ & Hbare).
  destruct (Hbare eq_refl) as [Hconv Hkeep].
  split.
  - unfold db. rewrite Hentry. f_equal. destruct entry as [conv prof].
    simpl in *. by rewrite Hconv, Hlog.
  - rewrite <- Hconv. apply Hkeep.
Defined.

Section Saving.
Variable env : nat -> WriteEnv.

Lemma writeOnce_ok e d :
  (writeOnce e d).2 = writeSucceeds e
  /\ durable (writeOnce e d).1
     = (if writeSucceeds e then Some (Snapshot (w_store e)) else durable d).
Proof.
  unfold writeOnce, writeSucceeds.
  by destruct (w_writeFails e), (w_renameFails e).
Qed.

(** The retries of [saveChatHistory] from retry count [3 - remaining]. *)
Lemma saveRetry_shape remaining : forall d,
  (remaining <= saveMaxRetries)%nat ->
  let first := (saveMaxRetries - remaining)%nat in
  let r := saveRetry env remaining d in
  (1 <= writes r <= S remaining)%nat
  /\ waits r = map (fun k => saveRetryDelay * (Z.of_nat k + 1))
                   (seq first (writes r - 1))
  /\ (forall k, (first <= k < first + writes r - 1)%nat ->
                writeSucceeds (env k) = false)
  /\ saved r = writeSucceeds (env (first + writes r - 1)%nat)
  /\ (saved r = false -> writes r = S remaining)
  /\ durable (disk r)
     = (if saved r
        then Some (Snapshot (w_store (env (first + writes r - 1)%nat)))
        else durable d).
Proof.
  induction remaining as [|remaining IH]; intros d Hle; cbn zeta.
  - cbn [saveRetry]. remember (saveMaxRetries - 0)%nat as first eqn:Hfirst.
    destruct (writeOnce_ok (env first) d) as [Hok Hdur].
    destruct (writeOnce (env first) d) as [d' ok].
    cbn [fst snd] in Hok, Hdur. subst ok.
    destruct (writeSucceeds (env first)) eqn:E; cbn [writes waits saved disk];
      replace (first + 1 - 1)%nat with first by lia; rewrite E, Hdur;
      (split; [lia|]); (split; [reflexivity|]); (split; [intros k Hk; lia|]);
      (split; [reflexivity|]); (split; [done|]); reflexivity.
  - cbn [saveRetry].
    remember (saveMaxRetries - S remaining)%nat as first eqn:Hfirst.
    destruct (writeOnce_ok (env first) d) as [Hok Hdur].
    destruct (writeOnce (env first) d) as [d' ok].
    cbn [fst snd] in Hok, Hdur. subst ok.
    destruct (writeSucceeds (env first)) eqn:E.
    + cbn [writes waits saved disk].
      replace (first + 1 - 1)%nat with first by lia. rewrite E, Hdur.
      (split; [lia|]); (split; [reflexivity|]); (split; [intros k Hk; lia|]);
      (split; [reflexivity|]); (split; [done|]); reflexivity.
    + specialize (IH d' ltac:(lia)). cbn zeta in IH.
      replace (saveMaxRetries - remaining)%nat with (S first) in IH by lia.
      destruct IH as (Hw & Hwaits & Hfails & Hsaved & Hall & Hdisk).
      set (r := saveRetry env remaining d') in *.
      cbn [writes waits saved disk].
      replace (first + S (writes r) - 1)%nat
        with (S first + writes r - 1)%nat by lia.
      split; [lia|]. split; [|split; [|split; [|split]]].
      * replace (S (writes r) - 1)%nat with (S (writes r - 1)) by lia.
        cbn [seq map]. f_equal. exact Hwaits.
      * intros k Hk.
        destruct (decide (k = first)) as [->|Hne]; [exact E|].
        apply Hfails. lia.
      * exact Hsaved.
      * intros Hs. rewrite (Hall Hs). reflexivity.
      * rewrite Hdisk, Hdur. reflexivity.
Qed.

End Saving.

(** X21.  The retries of a save.  [saveChatHistory] makes at most four
    attempts, waiting 1, 2 and 3 seconds between them; it stops at the
    first attempt that both writes the temporary file and renames it, and
    it fails only after four failed attempts, six seconds of waiting in
    all. *)
Theorem save_retries (env : nat -> WriteEnv) (d : Disk) :
  let r := saveChatHistory env d in
  (1 <= writes r <= 4)%nat
  /\ waits r = take (writes r - 1) [1000; 2000; 3000]
  /\ (forall k, (k < writes r - 1)%nat -> writeSucceeds (env k) = false)
  /\ saved r = writeSucceeds (env (writes r - 1)%nat)
  /\ (saved r = false ->
      writes r = 4%nat /\ waits r = [1000; 2000; 3000]).
Proof.
  intros r.
  destruct (saveRetry_shape env saveMaxRetries d (le_n _))
    as (Hw & Hwaits & Hfails & Hsaved & Hall & _).
  fold (saveChatHistory env d) in *. fold r in Hw, Hwaits, Hfails, Hsaved, Hall.
  replace (saveMaxRetries - saveMaxRetries)%nat with 0%nat in * by lia.
  assert (Hw4 : (1 <= writes r <= 4)%nat) by (unfold saveMaxRetries in Hw; lia).
  assert (Htake : waits r = take (writes r - 1) [1000; 2000; 3000]).
  { rewrite Hwaits. destruct (writes r) as [|[|[|[|[|n]]]]]; try lia; reflexivity. }
  split; [exact Hw4|]. split; [exact Htake|]. split; [|split].
  - intros k Hk. apply Hfails. lia.
  - exact Hsaved.
  - intros Hs. specialize (Hall Hs). unfold saveMaxRetries in Hall.
    split; [exact Hall|]. rewrite Htake, Hall. reflexivity.
Qed.

Lemma save_retries_witness :
  let d := {| durable := None; temp := None |} in
  let env := fun _ : nat => {| w_store := ∅; w_writeFails := false;
                               w_renameFails := true |} in
  saved (saveChatHistory env d) = false
  /\ writes (saveChatHistory env d) = 4%nat
  /\ waits (saveChatHistory env d) = [1000; 2000; 3000].
Proof.
  intros d env.
  assert (Hs : saved (saveChatHistory env d) = false) by reflexivity.
  destruct (save_retries env d) as (_ & _ & _ & _ & Hfail).
  split; [exact Hs | exact (Hfail Hs)].
Defined.

(** X22.  A save replaces the history file in one step or not at all.
    After [saveChatHistory], whatever fails and wherever, the durable file
    is the complete snapshot written by the attempt that succeeded, or it
    is what it was before the call; an interrupted write only ever hits
    the temporary file. *)
Theorem save_is_atomic (env : nat -> WriteEnv) (d : Disk) :
  let r := saveChatHistory env d in
  durable (disk r)
  = (if saved r
     then Some (Snapshot (w_store (env (writes r - 1)%nat)))
     else durable d)
  /\ (durable d <> Some Torn -> durable (disk r) <> Some Torn).
Proof.
  intros r.
  destruct (saveRetry_shape env saveMaxRetries d (le_n _))
    as (_ & _ & _ & _ & _ & Hdisk).
  fold (saveChatHistory env d) in Hdisk. fold r in Hdisk.
  replace (saveMaxRetries - saveMaxRetries + writes r - 1)%nat
    with (writes r - 1)%nat in Hdisk by lia.
  split; [exact Hdisk|]. intros Hbefore. rewrite Hdisk.
  destruct (saved r); [discriminate | exact Hbefore].
Qed.

Lemma save_is_atomic_witness :
  let d := {| durable := Some (Snapshot ∅); temp := None |} in
  let env := fun _ : nat => {| w_store := {[ "alice" := sampleConversation 1 0 ]};
                               w_writeFails := true; w_renameFails := false |} in
  durable d <> Some Torn
  /\ durable (disk (saveChatHistory env d)) = Some (Snapshot ∅)
  /\ temp (disk (saveChatHistory env d)) = Some Torn.
Proof.
  intros d env. split; [discriminate|].
  destruct (save_is_atomic env d) as [Hdisk _].
  split; [exact Hdisk | reflexivity].
Defined.

End ConversationStoreMore.

(* --------------------------------------------------------------------- *)
(** ** The channel client                                                 *)
(* --------------------------------------------------------------------- *)

Section ChannelClient.
Import WhatsAppClient.

(** X23.  The retries of a send.  Without a connection [sendMessage]
    rejects with ["WhatsApp client is not connected"] and sends nothing.
    With one it calls the socket at most three times, waiting 1 and 2
    seconds in between, and stops at the first call that succeeds; it
    rejects only after three failed calls, with the error of the third one
    and without a wait after it. *)
Theorem send_retries (isConnected hasSock : bool)
    (sock : nat -> option string) :
  let r := sendMessage isConnected hasSock sock in
  (isConnected && hasSock = false ->
   sends r = 0%nat /\ sendWaits r = []
   /\ sendResult r = SendFailed (Some notConnected))
  /\ (isConnected && hasSock = true ->
      (1 <= sends r <= 3)%nat
      /\ sendWaits r = take (sends r - 1) [1000; 2000]
      /\ (forall k, (k < sends r - 1)%nat -> sock k <> None)
      /\ (sendResult r = Sent <-> sock (sends r - 1)%nat = None)
      /\ (forall error, sendResult r = SendFailed error ->
            sends r = 3%nat /\ error = sock 2%nat
            /\ sendWaits r = [1000; 2000])).
Proof.
  intros r. subst r. unfold sendMessage.
  destruct isConnected, hasSock; cbn [negb orb andb];
    (split; [intros Hc; try discriminate; by repeat split
            |intros Hc; try discriminate]).
  cbn [seq sendMaxRetries sendLoop].
  destruct (sock 0%nat) as [e0|] eqn:E0;
    [destruct (sock 1%nat) as [e1|] eqn:E1;
       [destruct (sock 2%nat) as [e2|] eqn:E2|]|];
    cbn [sends sendWaits sendResult Nat.ltb Nat.leb Nat.sub app take];
    rewrite ?E0, ?E1, ?E2;
    (split; [lia|]); (split; [reflexivity|]);
    (split; [intros [|[|k]] Hk; try lia; congruence|]);
    (split; [split; congruence|]);
    intros error [= <-]; by repeat split.
Qed.

Lemma send_retries_witness :
  let r := sendMessage true true (fun _ => Some "Connection Closed") in
  true && true = true
  /\ sendResult r = SendFailed (Some "Connection Closed")
  /\ sends r = 3%nat
  /\ sendWaits r = [1000; 2000].
Proof.
  intros r. split; [reflexivity|].
  destruct (send_retries true true (fun _ => Some "Connection Closed"))
    as (_ & Hon).
  destruct (Hon eq_refl) as (_ & _ & _ & _ & Hfail).
  assert (Hres : sendResult r = SendFailed (Some "Connection Closed"))
    by reflexivity.
  destruct (Hfail _ Hres) as (Hs & _ & Hw).
  split; [exact Hres|]. split; [exact Hs | exact Hw].
Defined.

End ChannelClient.

(* --------------------------------------------------------------------- *)
(** ** The performance monitor                                            *)
(* --------------------------------------------------------------------- *)

Section Monitor.
Import PerformanceMonitor.

Lemma lastN_all {A} (n : nat) (l : list A) :
  (length l <= n)%nat -> lastN n l = l.
Proof.
  intros Hle. unfold lastN. by replace (length l - n)%nat with 0%nat by lia.
Qed.

Lemma lastN_snoc {A} (n : nat) (l : list A) (x : A) :
  (0 < n)%nat -> lastN n (lastN n l ++ [x]) = lastN n (l ++ [x]).
Proof.
  intros Hn. destruct (decide (length l <= n)%nat) as [Hle|Hgt].
  - by rewrite (lastN_all n l Hle).
  - unfold lastN at 1 3. rewrite !length_app, lastN_length. cbn [length].
    replace (Nat.min n (length l) + 1 - n)%nat with 1%nat by lia.
    unfold lastN.
    rewrite (drop_app_le l [x] (length l + 1 - n)) by lia.
    rewrite (drop_app_le (drop (length l - n) l) [x] 1)
      by (rewrite length_drop; lia).
    rewrite drop_drop. do 2 f_equal. lia.
Qed.

Lemma ofType_snoc ty pre e :
  ofType ty (pre ++ [e])
  = ofType ty pre ++ (if String.eqb (ev_type e) ty then [e] else []).
Proof. unfold ofType. by rewrite List.filter_app. Qed.

Lemma sumZ_snoc l t : sumZ (l ++ [t]) = sumZ l + t.
Proof.
  unfold sumZ. induction l as [|x l IH]; cbn [foldr app]; [lia|].
  rewrite IH. lia.
Qed.

Lemma updateMetrics_keeps e m :
  events (updateMetrics e m) = events m
  /\ monitoring (updateMetrics e m) = monitoring m.
Proof.
  unfold updateMetrics, updateAverageResponseTime.
  repeat (destruct (String.eqb _ _)); try done.
  destruct (ev_responseTime e) as [t|]; [destruct (t =? 0)|]; done.
Qed.

(** One recorded event. *)
Lemma recordEvent_tracks now ty rt m pre :
  monitoring m = true ->
  tracks m pre ->
  tracks (recordEvent now ty rt m)
         (pre ++ [{| ev_type := ty; ev_timestamp := now;
                     ev_responseTime := rt |}])
  /\ monitoring (recordEvent now ty rt m) = true.
Proof.
  intros Hon (Hev & Hmp & Herr & Hac & Havg).
  unfold recordEvent. rewrite Hon. cbn [negb]. cbv zeta.
  set (e := {| ev_type := ty; ev_timestamp := now; ev_responseTime := rt |}).
  set (kept := if (1000 <? length (events m ++ [e]))%nat
               then JsonDatabase.sliceFrom (-1000) (events m ++ [e])
               else events m ++ [e]).
  assert (Hkept : kept = lastN 1000 (pre ++ [e])).
  { rewrite <- (lastN_snoc 1000 pre e) by lia. rewrite <- Hev. unfold kept.
    destruct (Nat.ltb_spec 1000 (length (events m ++ [e]))) as [Hlt|Hle].
    - change (-1000) with (- Z.of_nat 1000). apply sliceFrom_lastN. lia.
    - symmetry. by apply lastN_all. }
  clearbody kept. subst kept.
  set (m0 := {| startTime := startTime m; events := lastN 1000 (pre ++ [e]);
                messagesProcessed := messagesProcessed m;
                averageResponseTime := averageResponseTime m;
                errorCount := errorCount m;
                activeConnections := activeConnections m;
                monitoring := true |}).
  destruct (updateMetrics_keeps e m0) as [Hke Hkm].
  split; [|by rewrite Hkm].
  unfold tracks. rewrite Hke. split; [reflexivity|].
  unfold responseTimes. rewrite !ofType_snoc.
  unfold updateMetrics. change (ev_type e) with ty.
  change (ev_responseTime e) with rt.
  destruct (String.eqb ty "message_processed") eqn:E1.
  { apply String.eqb_eq in E1. subst ty.
    change (String.eqb "message_processed" "error_occurred") with false.
    change (String.eqb "message_processed" "whatsapp_connected") with false.
    rewrite !app_nil_r, length_app. cbn [length].
    assert (Hsplit : forall A B C D : Prop,
              A /\ B /\ C -> D -> A /\ B /\ C /\ D) by tauto.
    assert (Hcount : forall m',
              messagesProcessed m' = S (messagesProcessed m) ->
              errorCount m' = errorCount m ->
              activeConnections m' = activeConnections m ->
              messagesProcessed m'
              = (length (ofType "message_processed" pre) + 1)%nat
              /\ errorCount m' = length (ofType "error_occurred" pre)
              /\ 0 <= activeConnections m'
                 <= Z.of_nat (length (ofType "whatsapp_connected" pre))).
    { intros m' H1 H2 H3. rewrite H1, H2, H3.
      split; [lia|]. split; [exact Herr | exact Hac]. }
    destruct rt as [t|]; [destruct (Z.eqb_spec t 0) as [->|Hne]|];
      (apply Hsplit; [by apply Hcount|]).
    - rewrite forallb_app. cbn. rewrite andb_false_r. discriminate.
    - rewrite forallb_app, andb_true_iff. intros [Hpre _].
      specialize (Havg Hpre). unfold responseTimes in Havg.
      rewrite omap_app.
      match goal with
      | |- context [omap ?f [e]] =>
          assert (He : omap f [e] = [t])
            by (cbn; destruct (Z.eqb_spec t 0); [contradiction | reflexivity]);
          rewrite He
      end.
      destruct (Z.eqb_spec t 0) as [?|_]; [contradiction|].
      unfold updateAverageResponseTime.
      cbn [averageResponseTime messagesProcessed m0].
      rewrite sumZ_snoc, inject_Z_plus, <- Havg.
      rewrite Nat2Z.inj_succ. unfold Z.succ. rewrite inject_Z_plus.
      set (q := inject_Z (Z.of_nat (messagesProcessed m))).
      assert (Hq : ~ (q + inject_Z 1 == 0)%Q).
      { unfold q. rewrite <- inject_Z_plus.
        change 0%Q with (inject_Z 0). rewrite inject_Z_injective. lia. }
      change (inject_Z 1) with 1%Q in *. field. exact Hq.
    - rewrite forallb_app. cbn. rewrite andb_false_r. discriminate. }
  rewrite app_nil_r.
  destruct (String.eqb ty "error_occurred") eqn:E2.
  { apply String.eqb_eq in E2. subst ty.
    change (String.eqb "error_occurred" "whatsapp_connected") with false.
    rewrite app_nil_r, length_app. cbn [length messagesProcessed errorCount
      activeConnections averageResponseTime m0].
    split; [exact Hmp|]. split; [lia|]. split; [exact Hac | exact Havg]. }
  rewrite app_nil_r.
  destruct (String.eqb ty "whatsapp_connected") eqn:E3.
  { rewrite length_app. cbn [length messagesProcessed errorCount
      activeConnections averageResponseTime m0].
    split; [exact Hmp|]. split; [exact Herr|]. split; [lia | exact Havg]. }
  rewrite app_nil_r.
  destruct (String.eqb ty "whatsapp_disconnected") eqn:E4;
    cbn [messagesProcessed errorCount activeConnections averageResponseTime m0];
    (split; [exact Hmp|]); (split; [exact Herr|]); (split; [lia | exact Havg]).
Qed.

(** Every sequence of calls. *)
Lemma calls_tracks cs : forall m pre,
  tracks m pre ->
  tracks (calls cs m) (pre ++ accepted (monitoring m) cs).
Proof.
  induction cs as [|c cs IH]; intros m pre Hm.
  - cbn [accepted]. by rewrite app_nil_r.
  - unfold calls. cbn [foldl]. fold (calls cs (call m c)).
    destruct c as [now| |now ty rt]; cbn [call accepted].
    + unfold startMonitoring. destruct (monitoring m) eqn:Hon.
      * specialize (IH m pre Hm). by rewrite Hon in IH.
      * apply (IH {| startTime := now; events := events m;
                     messagesProcessed := messagesProcessed m;
                     averageResponseTime := averageResponseTime m;
                     errorCount := errorCount m;
                     activeConnections := activeConnections m;
                     monitoring := true |} pre).
        exact Hm.
    + unfold stopMonitoring. destruct (monitoring m) eqn:Hon; cbn [negb].
      * apply (IH {| startTime := startTime m; events := events m;
                     messagesProcessed := messagesProcessed m;
                     averageResponseTime := averageResponseTime m;
                     errorCount := errorCount m;
                     activeConnections := activeConnections m;
                     monitoring := false |} pre).
        exact Hm.
      * specialize (IH m pre Hm). by rewrite Hon in IH.
    + destruct (monitoring m) eqn:Hon.
      * destruct (recordEvent_tracks now ty rt m pre Hon Hm) as [Ht Hon'].
        specialize (IH _ _ Ht). rewrite Hon' in IH.
        by rewrite <- app_assoc in IH.
      * unfold recordEvent. rewrite Hon. cbn [negb app].
        specialize (IH m pre Hm). by rewrite Hon in IH.
Qed.

Lemma construct_tracks now : tracks (construct now) [].
Proof.
  unfold tracks, construct. cbn. repeat split; done.
Qed.

(** X24.  The event log is bounded and switched.  After any sequence of
    calls the monitor holds the last thousand of the events recorded while
    it was switched on, in their order, and none recorded while it was
    off. *)
Theorem event_log_bounded (now : Z) (cs : list Call) :
  let m := calls cs (construct now) in
  events m = lastN 1000 (accepted false cs)
  /\ (length (events m) <= 1000)%nat.
Proof.
  intros m. destruct (calls_tracks cs _ _ (construct_tracks now)) as (Hev & _).
  cbn [app construct monitoring] in Hev. fold m in Hev.
  split; [exact Hev|]. rewrite Hev, lastN_length. lia.
Qed.

(** X25.  The counters cover every recorded event, not only the thousand
    that are kept: [messagesProcessed] and [errorCount] are the numbers of
    events of their types recorded while the monitor was on, and
    [activeConnections] never drops below zero nor exceeds the number of
    connections recorded. *)
Theorem counters_cover_all_events (now : Z) (cs : list Call) :
  let m := calls cs (construct now) in
  let all := accepted false cs in
  messagesProcessed m = length (ofType "message_processed" all)
  /\ errorCount m = length (ofType "error_occurred" all)
  /\ 0 <= activeConnections m
     <= Z.of_nat (length (ofType "whatsapp_connected" all)).
Proof.
  intros m all.
  destruct (calls_tracks cs _ _ (construct_tracks now))
    as (_ & Hmp & Herr & Hac & _).
  cbn [app construct monitoring] in Hmp, Herr, Hac.
  split; [exact Hmp|]. split; [exact Herr | exact Hac].
Qed.



(** X27.  A failed message is counted as two errors.  While the monitor is
    on, the bookkeeping of a message answered with the apology adds one to
    [messagesProcessed] and two to [errorCount], once through
    [recordMessageProcessing] and once through the [recordEvent] that
    follows it; that of a message answered with a reply adds one to
    [messagesProcessed] and nothing to [errorCount]. *)
Theorem failure_counted_twice (now1 now2 now3 startTime endTime : Z)
    (m : Monitor) :
  monitoring m = true ->
  let failed := recordFailure now1 now2 now3 startTime endTime m in
  let replied := recordReply now1 now2 startTime endTime m in
  messagesProcessed failed = S (messagesProcessed m)
  /\ errorCount failed = S (S (errorCount m))
  /\ messagesProcessed replied = S (messagesProcessed m)
  /\ errorCount replied = errorCount m.
Proof.
  intros Hon failed replied. subst failed replied.
  unfold recordFailure, recordReply, recordMessageProcessing, recordEvent.
  cbv zeta. rewrite Hon.
  cbn -[Nat.ltb Z.sub Z.eqb JsonDatabase.sliceFrom length app].
  unfold updateAverageResponseTime.
  destruct (endTime - startTime =? 0);
    cbn -[Nat.ltb Z.sub Z.eqb JsonDatabase.sliceFrom length app];
    by repeat split.
Qed.

Lemma failure_counted_twice_witness :
  let m := startMonitoring 0 (construct 0) in
  monitoring m = true
  /\ messagesProcessed (recordFailure 5000 5000 5001 0 5000 m) = 1%nat
  /\ errorCount (recordFailure 5000 5000 5001 0 5000 m) = 2%nat.
Proof.
  intros m.
  assert (Hon : monitoring m = true) by reflexivity.
  destruct (failure_counted_twice 5000 5000 5001 0 5000 m Hon)
    as (Hmp & Herr & _).
  split; [exact Hon|]. split; [exact Hmp | exact Herr].
Defined.

End Monitor.
